(** * Complex trace attributes: a shallow embedding of attributes/ComplexTrace.py

    The development follows the Python module.

    - [Float64]: the numeric values, IEEE 754 binary64 as the standard
      library's [SpecFloat] has it (the numpy default dtype, and the dtype
      of [xp.zeros]).  NaN, the infinities and the zeros are values of the
      type, so the statements speak about them directly.
    - [Py]: a Python exception is a [Raise], a returned value is an [Ok].
    - [Numpy]: the block-level primitives the closures call ([unique],
      [where], [argmax], index arrays, [sign], [clip], [cumsum]), on
      three-dimensional blocks held as nested lists (axes i, j, k).
    - [Closures]: the five nested functions of the module, [func] of
      [sweetness] and the four [operation] closures, each from its own
      source text.
    - [Dask], [Attributes]: the methods of [ComplexAttributes] over chunked
      arrays.  The chunk metadata of an array is explicit; what comes from
      outside the module (the Hilbert callback, libm, the chunk planner, the
      block exchange of the dask runtime) is a field of the instance record.
      A method returns a dask array or raises: the ValueError of [overlap]
      on an array smaller than the halo and of an elementwise operation on
      shapes that do not broadcast, the ZeroDivisionError of
      [1000 / sample_rate], the IndexError of a closure.
      Decorators ([util.check_numpy], [util.check_hilbert]) only install the
      backend and are left out.
    - [Constructor]: [__init__], over the dictionary of the instance.
    - [Probe]: an instance for evaluating the methods on small arrays.
    - [MaxOrder], [Engine]: the vocabulary of the statements, with the
      loops of the closures run over an output that keeps a journal of its
      assignments.

    The properties follow the definitions, then the statements of the
    specification, C1 to C10; further properties of the module, X1 to X18,
    close the file. *)

From Stdlib Require Import ZArith SpecFloat.
From stdpp Require Import base numbers list sorting gmap strings.


(** ** binary64 *)

Module Float64.

Definition float : Type := spec_float.

Definition prec : Z := 53.
Definition emax : Z := 1024.

Definition nan : float := S754_nan.
Definition infinity : float := S754_infinity false.
Definition zero : float := S754_zero false.

(** The float nearest to an integer: how an [int] operand such as [5],
    [-1] or [1000] enters a float computation. *)
Definition of_Z (z : Z) : float := binary_normalize prec emax z 0 false.

Definition one : float := S754_finite false 4503599627370496 (-52).
Definition minus_one : float := S754_finite true 4503599627370496 (-52).
Definition two : float := S754_finite false 4503599627370496 (-51).
Definition five : float := S754_finite false 5629499534213120 (-50).
Definition thousand : float := S754_finite false 8796093022208000 (-43).
(** [numpy.pi], the binary64 nearest to pi: 0x400921FB54442D18. *)
Definition pi : float := S754_finite false 7074237752028440 (-51).

Definition fmul : float → float → float := SFmul prec emax.
Definition fdiv : float → float → float := SFdiv prec emax.
Definition fabs : float → float := SFabs.

Definition flt : float → float → bool := SFltb.
Definition fle : float → float → bool := SFleb.
Definition feq : float → float → bool := SFeqb.

Definition isnan (x : float) : bool :=
  match x with S754_nan => true | _ => false end.

Definition isinf (x : float) : bool :=
  match x with S754_infinity _ => true | _ => false end.

(** A value of the format: the mantissa is normalised and the exponent is
    in range. *)
Definition valid (x : float) : bool := valid_binary prec emax x.

End Float64.

Export Float64.

(** ** Python exceptions *)

Module Py.

Inductive pyerror : Type := IndexError | ValueError | ZeroDivisionError.

Inductive result (A : Type) : Type :=
| Ok (a : A)
| Raise (e : pyerror).

Arguments Ok {A} a.
Arguments Raise {A} e.

Definition bind {A B : Type} (m : result A) (k : A → result B) : result B :=
  match m with
  | Ok a => k a
  | Raise e => Raise e
  end.

(** A [for] loop whose body may raise: the state is threaded through the
    iterations and the first exception ends the loop. *)
Fixpoint for_each {S X : Type} (body : S → X → result S) (xs : list X) (s : S)
  : result S :=
  match xs with
  | [] => Ok s
  | x :: xs' => bind (body s x) (for_each body xs')
  end.

End Py.

Export Py.

Notation "'let*' x := m 'in' k" := (bind m (λ x, k))
  (at level 10, x name, m at level 100, k at level 200, only parsing).

(** ** numpy on blocks *)

Module Numpy.

(** A three-dimensional block: [c !! i] is a row of traces, a trace runs
    along the last (fast) axis. *)
Abbreviation ndarray A := (list (list (list A))).

Definition shape3 : Type := nat * nat * nat.

(** [a.shape] *)
Definition shape {A : Type} (c : ndarray A) : shape3 :=
  (length c, length (hd [] c), length (hd [] (hd [] c))).

(** Blocks are rectangular. *)
Definition has_shape {A : Type} (s : shape3) (c : ndarray A) : Prop :=
  let '(n0, n1, n2) := s in
  length c = n0 ∧
  Forall (λ row, length row = n1 ∧ Forall (λ t : list A, length t = n2) row) c.

#[global] Instance has_shape_dec {A : Type} (s : shape3) (c : ndarray A) :
  Decision (has_shape s c).
Proof. destruct s as [[n0 n1] n2]. unfold has_shape. apply _. Defined.

(** [xp.zeros(shape)] *)
Definition zeros (s : shape3) : ndarray float :=
  let '(n0, n1, n2) := s in
  replicate n0 (replicate n1 (replicate n2 zero)).

(** [xp.ndindex(n0, n1)]: the index pairs in row-major order. *)
Definition ndindex (n0 n1 : nat) : list (nat * nat) :=
  i ← seq 0 n0; (λ j, (i, j)) <$> seq 0 n1.

(** [a[k]] with a non-negative index. *)
Definition getitem {A : Type} (a : list A) (k : nat) : result A :=
  match a !! k with
  | Some x => Ok x
  | None => Raise IndexError
  end.

(** [a[idx]] with an index array. *)
Fixpoint getitem_fancy {A : Type} (a : list A) (idx : list nat)
  : result (list A) :=
  match idx with
  | [] => Ok []
  | k :: idx' =>
      let* x := getitem a k in
      let* xs := getitem_fancy a idx' in
      Ok (x :: xs)
  end.

(** [a[idx] = v] with an index array and a scalar. *)
Fixpoint put {A : Type} (a : list A) (idx : list nat) (v : A) : result (list A) :=
  match idx with
  | [] => Ok a
  | k :: idx' =>
      if decide (k < length a) then put (<[k := v]> a) idx' v
      else Raise IndexError
  end.

(** [c[i, j, :]] *)
Definition trace_at {A : Type} (c : ndarray A) (i j : nat) : result (list A) :=
  let* row := getitem c i in
  getitem row j.

(** [c[i, j, k]] *)
Definition getitem3 {A : Type} (c : ndarray A) (i j k : nat) : result A :=
  let* t := trace_at c i j in
  getitem t k.

(** [c[i, j, idx]] *)
Definition getitem_fancy3 {A : Type} (c : ndarray A) (i j : nat) (idx : list nat)
  : result (list A) :=
  let* t := trace_at c i j in
  getitem_fancy t idx.

(** [c[i, j, idx] = v] *)
Definition setitem_fancy3 {A : Type} (c : ndarray A) (i j : nat) (idx : list nat)
    (v : A) : result (ndarray A) :=
  let* row := getitem c i in
  let* t := getitem row j in
  let* t' := put t idx v in
  Ok (<[i := <[j := t']> row]> c).

(** [xp.unique] on integer labels: the distinct values, ascending. *)
Fixpoint insert_unique (x : Z) (l : list Z) : list Z :=
  match l with
  | [] => [x]
  | y :: l' =>
      if decide (x < y)%Z then x :: y :: l'
      else if decide (x = y) then y :: l'
      else y :: insert_unique x l'
  end.

Definition unique (a : list Z) : list Z := foldr insert_unique [] a.

(** [xp.where(a == ii)[0]]: the positions holding [ii], ascending. *)
Definition where_eq (a : list Z) (ii : Z) : list nat :=
  filter (λ k, a !! k = Some ii) (seq 0 (length a)).

(** [a.argmax()] on floats, as numpy's loop does it: the running maximum
    starts at the first entry, a later entry replaces it when it is not
    [<=] the maximum, and a NaN, once met, is the answer. *)
Fixpoint argmax_loop (mp : float) (max_ind i : nat) (ip : list float) : nat :=
  match ip with
  | [] => max_ind
  | x :: ip' =>
      if isnan mp then max_ind
      else if fle x mp then argmax_loop mp max_ind (S i) ip'
      else argmax_loop x i (S i) ip'
  end.

Definition argmax (a : list float) : result nat :=
  match a with
  | [] => Raise ValueError
  | x :: a' => Ok (argmax_loop x 0 1 a')
  end.

(** [xp.sign]: 1, -1 or 0 by comparison with zero, and the argument itself
    (a NaN) when no comparison holds. *)
Definition sign (x : float) : float :=
  if flt zero x then one
  else if flt x zero then minus_one
  else if feq x zero then zero
  else x.

(** [clip(x, lo, hi)] on floats, as numpy computes it: the minimum with
    [hi] of the maximum with [lo], where the maximum of [a] and [b] is [a]
    when [a] is NaN or [a > b] and [b] otherwise, and the minimum is [a]
    when [a] is NaN or [a < b]. *)
Definition clip (lo hi x : float) : float :=
  let m := if isnan x then x else if flt lo x then x else lo in
  if isnan m then m else if flt m hi then m else hi.

(** Elementwise application on a block, one and two operands. *)
Definition cmap {A B : Type} (f : A → B) (c : ndarray A) : ndarray B :=
  (λ row : list (list A), (λ t : list A, f <$> t) <$> row) <$> c.

Definition czip {A B C : Type} (f : A → B → C) (a : ndarray A) (b : ndarray B)
  : ndarray C :=
  zip_with (zip_with (zip_with f)) a b.

(** All the elements of a block. *)
Definition elements {A : Type} (c : ndarray A) : list A := concat (concat c).

(** [xp.cumsum(a)] of a boolean trace: the running count of [True]. *)
Fixpoint cumsum_from (acc : Z) (a : list bool) : list Z :=
  match a with
  | [] => []
  | b :: a' =>
      let acc' := (acc + (if b then 1 else 0))%Z in
      acc' :: cumsum_from acc' a'
  end.

Definition cumsum (a : list bool) : list Z := cumsum_from 0 a.

End Numpy.

Export Numpy.

(** ** The nested functions of the module *)

Module Closures.

(** [sweetness.func]:
<<
    def func(chunk):
        chunk[chunk < 5] = 5
        return(chunk)
>> *)
Definition func (chunk : ndarray float) : ndarray float :=
  cmap (λ x, if flt x five then five else x) chunk.

(** [response_phase.operation]:
<<
    def operation(chunk1, chunk2, chunk3):
        out = self.xp.zeros(chunk1.shape)
        for i,j in self.xp.ndindex(out.shape[:-1]):
            ints = self.xp.unique(chunk3[i, j, :])
            for ii in ints:
                idx = self.xp.where(chunk3[i, j, :] == ii)[0]
                peak = idx[chunk1[i, j, idx].argmax()]
                out[i, j, idx] = chunk2[i, j, peak]
        return(out)
>> *)
Definition response_phase_operation (chunk1 chunk2 : ndarray float)
    (chunk3 : ndarray Z) : result (ndarray float) :=
  let out := zeros (shape chunk1) in
  for_each (λ out '(i, j),
      let* row := trace_at chunk3 i j in
      let ints := unique row in
      for_each (λ out ii,
          let* row := trace_at chunk3 i j in
          let idx := where_eq row ii in
          let* sel := getitem_fancy3 chunk1 i j idx in
          let* a := argmax sel in
          let* peak := getitem idx a in
          let* v := getitem3 chunk2 i j peak in
          setitem_fancy3 out i j idx v)
        ints out)
    (ndindex (shape out).1.1 (shape out).1.2) out.

(** [response_frequency.operation], the same text again. *)
Definition response_frequency_operation (chunk1 chunk2 : ndarray float)
    (chunk3 : ndarray Z) : result (ndarray float) :=
  let out := zeros (shape chunk1) in
  for_each (λ out '(i, j),
      let* row := trace_at chunk3 i j in
      let ints := unique row in
      for_each (λ out ii,
          let* row := trace_at chunk3 i j in
          let idx := where_eq row ii in
          let* sel := getitem_fancy3 chunk1 i j idx in
          let* a := argmax sel in
          let* peak := getitem idx a in
          let* v := getitem3 chunk2 i j peak in
          setitem_fancy3 out i j idx v)
        ints out)
    (ndindex (shape out).1.1 (shape out).1.2) out.

(** [response_amplitude.operation], a third copy. *)
Definition response_amplitude_operation (chunk1 chunk2 : ndarray float)
    (chunk3 : ndarray Z) : result (ndarray float) :=
  let out := zeros (shape chunk1) in
  for_each (λ out '(i, j),
      let* row := trace_at chunk3 i j in
      let ints := unique row in
      for_each (λ out ii,
          let* row := trace_at chunk3 i j in
          let idx := where_eq row ii in
          let* sel := getitem_fancy3 chunk1 i j idx in
          let* a := argmax sel in
          let* peak := getitem idx a in
          let* v := getitem3 chunk2 i j peak in
          setitem_fancy3 out i j idx v)
        ints out)
    (ndindex (shape out).1.1 (shape out).1.2) out.

(** [apparent_polarity.operation]: the same loops, the value written is
<<
                out[i, j, idx] = chunk1[i, j, peak] * self.xp.sign(chunk2[i, j, peak])
>> *)
Definition apparent_polarity_operation (chunk1 chunk2 : ndarray float)
    (chunk3 : ndarray Z) : result (ndarray float) :=
  let out := zeros (shape chunk1) in
  for_each (λ out '(i, j),
      let* row := trace_at chunk3 i j in
      let ints := unique row in
      for_each (λ out ii,
          let* row := trace_at chunk3 i j in
          let idx := where_eq row ii in
          let* sel := getitem_fancy3 chunk1 i j idx in
          let* a := argmax sel in
          let* peak := getitem idx a in
          let* r := getitem3 chunk1 i j peak in
          let* c := getitem3 chunk2 i j peak in
          setitem_fancy3 out i j idx (fmul r (sign c)))
        ints out)
    (ndindex (shape out).1.1 (shape out).1.2) out.

(** Modelled from the spec: [util.local_events], which the methods map over
    the envelope with [comparator=xp.less], is not among the sources at
    hand.  Section 4.6, step 1: a boolean signal over the reference that is
    true where the sample compares (strictly, for [less]) against both
    neighbours along the fast axis; boundary samples are never flagged. *)
Definition local_events_trace (comparator : float → float → bool)
    (t : list float) : list bool :=
  imap (λ k x,
      match k with
      | 0 => false
      | S k' =>
          match t !! k', t !! S k with
          | Some minus, Some plus => comparator x plus && comparator x minus
          | _, _ => false
          end
      end) t.

Definition local_events (comparator : float → float → bool)
    (in_data : ndarray float) : ndarray bool :=
  (λ row : list (list float), local_events_trace comparator <$> row) <$> in_data.

End Closures.

Export Closures.


(** ** Chunked arrays *)

Module Dask.

(** Per axis, the extents of the blocks along it: [x.chunks]. *)
Definition chunks3 : Type := list Z * list Z * list Z.

(** A triple of integers: a shape, a kernel, a halo depth. *)
Definition triple : Type := Z * Z * Z.

(** A dask array is its chunk metadata and its blocks. *)
Record dask_array (A : Type) : Type := Darray {
  chunks : chunks3;
  blocks : list (ndarray A)
}.

Arguments Darray {A} chunks blocks.
Arguments chunks {A} d.
Arguments blocks {A} d.

Definition extent (cs : list Z) : Z := foldr Z.add 0%Z cs.

(** [x.shape]: along each axis the block extents add up. *)
Definition da_shape {A : Type} (d : dask_array A) : triple :=
  let '(c0, c1, c2) := chunks d in (extent c0, extent c1, extent c2).

Definition map_chunks (f0 f1 f2 : Z → Z) (cs : chunks3) : chunks3 :=
  let '(c0, c1, c2) := cs in (f0 <$> c0, f1 <$> c1, f2 <$> c2).

(** [x.map_blocks(g)]: the function runs on every block, the chunk
    metadata is kept. *)
Definition map_blocks {A B : Type} (g : ndarray A → ndarray B) (d : dask_array A)
  : dask_array B :=
  Darray (chunks d) (g <$> blocks d).

(** An elementwise function of one array ([da.absolute], [da.angle],
    [da.rad2deg], [da.clip], arithmetic with a scalar). *)
Definition elemwise {A B : Type} (f : A → B) (d : dask_array A) : dask_array B :=
  map_blocks (cmap f) d.

(** Every block is at least as large as the depth, along every axis: what
    [da.overlap.overlap] needs to leave the blocks as they are cut. *)
Definition fits_axis (h : Z) (cs : list Z) : Prop :=
  (0 ≤ h)%Z ∧ Forall (λ c, (h ≤ c)%Z) cs.

Definition fits (depth : triple) (cs : chunks3) : Prop :=
  fits_axis depth.1.1 cs.1.1 ∧ fits_axis depth.1.2 cs.1.2 ∧
  fits_axis depth.2 cs.2.

#[global] Instance fits_dec (depth : triple) (cs : chunks3) :
  Decision (fits depth cs).
Proof. unfold fits, fits_axis. apply _. Defined.

(** The chunk metadata after [da.overlap.overlap(x, depth, boundary)] with a
    boundary fill, on blocks that fit the depth: every block grows by the
    depth on both of its sides along every axis. *)
Definition overlap_chunks (depth : triple) (cs : chunks3) : chunks3 :=
  let '(h0, h1, h2) := depth in
  map_chunks (λ c, c + 2 * h0)%Z (λ c, c + 2 * h1)%Z (λ c, c + 2 * h2)%Z cs.

(** [x.numblocks] *)
Definition numblocks (cs : chunks3) : nat * nat * nat :=
  (length cs.1.1, length cs.1.2, length cs.2).

(** Two shapes broadcast when, along every axis, the extents are equal or
    one of them is 1. *)
Definition broadcast_axis (a b : Z) : Prop := a = b ∨ a = 1%Z ∨ b = 1%Z.

Definition broadcastable (s t : triple) : Prop :=
  broadcast_axis s.1.1 t.1.1 ∧ broadcast_axis s.1.2 t.1.2 ∧
  broadcast_axis s.2 t.2.

#[global] Instance broadcastable_dec (s t : triple) : Decision (broadcastable s t).
Proof. unfold broadcastable, broadcast_axis. apply _. Defined.

(** [tuple(np.array(kernel) // 2)] *)
Definition half_window (kernel : triple) : triple :=
  let '(k0, k1, k2) := kernel in (k0 `div` 2, k1 `div` 2, k2 `div` 2)%Z.

(** Modelled from the spec: [util.trim_dask_array] is not among the sources
    at hand.  Section 4.2: trim "removes exactly [kernel[axis]//2] samples
    from each side along every axis", block by block, undoing the growth
    of [overlap]. *)
Definition trim_axis {A : Type} (h : Z) (l : list A) : list A :=
  take (length l - 2 * Z.to_nat h) (drop (Z.to_nat h) l).

Definition trim_block {A : Type} (hw : triple) (c : ndarray A) : ndarray A :=
  let '(h0, h1, h2) := hw in
  trim_axis h0
    ((λ row : list (list A), trim_axis h1 (trim_axis h2 <$> row)) <$> c).

Definition trim_chunks (hw : triple) (cs : chunks3) : chunks3 :=
  let '(h0, h1, h2) := hw in
  map_chunks (λ c, c - 2 * h0)%Z (λ c, c - 2 * h1)%Z (λ c, c - 2 * h2)%Z cs.

(** Modelled from the spec: [util.trim_dask_array(in_data, kernel)], with the
    half window [kernel // 2] of [create_array]. *)
Definition trim_dask_array {A : Type} (in_data : dask_array A) (kernel : triple)
  : dask_array A :=
  let hw := half_window kernel in
  Darray (trim_chunks hw (chunks in_data)) (trim_block hw <$> blocks in_data).

(** [result[da.isnan(result)] = 0] *)
Definition setitem_isnan_zero (result : dask_array float) : dask_array float :=
  elemwise (λ x, if isnan x then zero else x) result.

(** All the elements of all the blocks. *)
Definition da_elements {A : Type} (d : dask_array A) : list A :=
  b ← blocks d; elements b.

End Dask.

Export Dask.

(** ** The methods of ComplexAttributes *)

Module Attributes.

Inductive preview : Type := inline | xline | zslice.

(** What a method accepts as [darray]: an array in memory, or a dask
    array. *)
Inductive volume : Type :=
| Numpy (a : ndarray float)
| Dask (d : dask_array float).

(** The [boundary] argument of [create_array]: a fill mode, or a volume,
    possibly still lazy. *)
Inductive boundary : Type :=
| reflect
| values (b : ndarray float)
| lazy_values (b : dask_array float).

Definition complex : Type := float * float.

(** What a caller passes as [sample_rate]: a Python [int] (the default
    is 4), a Python [float], or a numpy [float64] scalar. *)
Inductive number : Type :=
| py_int (z : Z)
| py_float (x : float)
| np_float64 (x : float).

Definition default_kernel : triple := (1, 1, 25)%Z.
Definition default_sample_rate : number := py_int 4.

(** [1000 / z] between Python ints, [z] not zero: the float nearest to
    the quotient. *)
Definition thousand_over (z : Z) : float :=
  let '(m, e, l) := SFdiv_core_binary prec emax 1000 0 (Z.abs z) 0 in
  binary_round_aux prec emax (z <? 0)%Z m e l.

(** [1000 / sample_rate].  Between Python numbers a zero divisor raises
    ZeroDivisionError.  A numpy scalar divides as IEEE 754 does:
    [1000 / numpy.float64(0.0)] is [inf] (numpy warns, nothing is
    raised). *)
Definition truediv_1000 (sample_rate : number) : result float :=
  match sample_rate with
  | py_int z =>
      if decide (z = 0%Z) then Raise ZeroDivisionError else Ok (thousand_over z)
  | py_float x =>
      if feq x zero then Raise ZeroDivisionError else Ok (fdiv thousand x)
  | np_float64 x => Ok (fdiv thousand x)
  end.

(** The instance and the environment it runs in.  [hilbert_cb] is
    [self.hilbert_cb], the analytic-signal kernel given to the constructor;
    [cabs] ... [unwrap] are the numeric backend and libm (magnitude of a
    complex number, [arctan2], degree/radian conversion, [hypot], [unwrap]
    on a block); [compute_chunk_size] is [util.compute_chunk_size], the
    chunk planner, which is not among the sources at hand;
    [from_array_chunks] and [from_array_blocks] are what [da.from_array]
    cuts.  The rest is the dask runtime: [overlap_blocks] is the halo
    exchange of [overlap] between blocks that are at least as large as the
    depth; [overlap_rechunk] is all of [overlap] when some block is smaller
    than the depth (dask merges blocks first, and gives up, [None], when the
    array itself is smaller than the depth); [da_compute] is [compute];
    [cumsum_blocks] is the running sum across the blocks of a trace;
    [unify_chunks2] rechunks and broadcasts two operands of an elementwise
    operation whose shapes are compatible and whose chunks differ;
    [blockwise3] is what [da.map_blocks] does with three operands whose
    numbers of blocks differ; [first_derivative_blocks] are the blocks
    [SignalProcess.first_derivative] computes. *)
Record ComplexAttributes : Type := {
  hilbert_cb : ndarray float → ndarray complex;
  cabs : complex → float;
  arctan2 : float → float → float;
  rad2deg : float → float;
  deg2rad : float → float;
  hypot : float → float → float;
  unwrap : ndarray float → ndarray float;
  compute_chunk_size : shape3 → Z → option triple → option preview → triple;
  from_array_chunks : shape3 → triple → chunks3;
  from_array_blocks : ndarray float → triple → list (ndarray float);
  overlap_blocks : dask_array float → triple → boundary → list (ndarray float);
  overlap_rechunk : dask_array float → triple → boundary → option (dask_array float);
  da_compute : dask_array float → ndarray float;
  cumsum_blocks : dask_array bool → list (ndarray Z);
  unify_chunks2 :
    dask_array float → dask_array float →
    result (dask_array float * dask_array float);
  blockwise3 :
    dask_array float → dask_array float → dask_array Z →
    result (dask_array float * dask_array float * dask_array Z);
  first_derivative_blocks : dask_array float → list (ndarray float)
}.

Section Methods.

Variable self : ComplexAttributes.

(** *** dask calls with a block exchange *)

Definition from_array (a : ndarray float) (chunk_size : triple) : dask_array float :=
  Darray (self.(from_array_chunks) (shape a) chunk_size)
         (self.(from_array_blocks) a chunk_size).

(** [da.overlap.overlap(x, depth, boundary)] with a boundary fill.  Where
    every block is at least as large as the depth, every block grows by the
    depth on both of its sides along every axis.  Where a block is smaller,
    dask rechunks first; when the array itself is smaller than the depth it
    raises ValueError. *)
Definition overlap (x : dask_array float) (depth : triple) (b : boundary)
  : result (dask_array float) :=
  if decide (fits depth (chunks x)) then
    Ok (Darray (overlap_chunks depth (chunks x)) (self.(overlap_blocks) x depth b))
  else
    match self.(overlap_rechunk) x depth b with
    | Some r => Ok r
    | None => Raise ValueError
    end.

(** [x.cumsum(axis=-1)] *)
Definition da_cumsum (x : dask_array bool) : dask_array Z :=
  Darray (chunks x) (self.(cumsum_blocks) x).

(** Modelled from the spec: [SignalProcess.first_derivative] is not among
    the sources at hand.  Section 4.4: "output shape equals input shape";
    it "never changes rank or size". *)
Definition first_derivative (x : dask_array float) : dask_array float :=
  Darray (chunks x) (self.(first_derivative_blocks) x).

(** An elementwise function of two arrays ([/], [da.hypot]).  Operands with
    the same chunks are combined block by block.  Otherwise the shapes must
    broadcast, or ValueError is raised ("operands could not be broadcast
    together"); the runtime brings operands that broadcast to common
    chunks. *)
Definition elemwise2 (f : float → float → float) (x y : dask_array float)
  : result (dask_array float) :=
  if decide (chunks x = chunks y) then
    Ok (Darray (chunks x) (zip_with (czip f) (blocks x) (blocks y)))
  else if decide (broadcastable (da_shape x) (da_shape y)) then
    let* xy := self.(unify_chunks2) x y in
    Ok (Darray (chunks xy.1) (zip_with (czip f) (blocks xy.1) (blocks xy.2)))
  else Raise ValueError.

(** The closure on the blocks of three arrays, position by position. *)
Fixpoint map3 (operation : ndarray float → ndarray float → ndarray Z →
                           result (ndarray float))
    (xs ys : list (ndarray float)) (zs : list (ndarray Z))
  : result (list (ndarray float)) :=
  match xs, ys, zs with
  | x :: xs', y :: ys', z :: zs' =>
      let* b := operation x y z in
      let* bs := map3 operation xs' ys' zs' in
      Ok (b :: bs)
  | _, _, _ => Ok []
  end.

(** [da.map_blocks(operation, x, y, z)] with a closure that may raise.
    [map_blocks] aligns nothing: operands with the same numbers of blocks
    are handed to the closure block by block, by position, whatever the
    extents of the blocks, and the result carries the chunks of the first
    operand. *)
Definition map_blocks3
    (operation : ndarray float → ndarray float → ndarray Z →
                 result (ndarray float))
    (x y : dask_array float) (z : dask_array Z) : result (dask_array float) :=
  if decide (numblocks (chunks x) = numblocks (chunks y) ∧
             numblocks (chunks x) = numblocks (chunks z)) then
    let* bs := map3 operation (blocks x) (blocks y) (blocks z) in
    Ok (Darray (chunks x) bs)
  else
    let* xyz := self.(blockwise3) x y z in
    let* bs := map3 operation (blocks xyz.1.1) (blocks xyz.1.2) (blocks xyz.2) in
    Ok (Darray (chunks xyz.1.1) bs).

(** [da.angle] on a complex block and on a real one: numpy takes
    [arctan2(z.imag, z.real)], with a zero imaginary part for a real
    input. *)
Definition angle (z : complex) : float := self.(arctan2) z.2 z.1.
Definition angle_real (x : float) : float := self.(arctan2) zero x.

(** *** create_array *)

Definition create_array (darray : volume) (kernel : option triple)
    (hw : option triple) (b : boundary) (preview : option preview)
  : result (dask_array float * chunks3) :=
  let darray :=
    match darray with
    | Dask d => d
    | Numpy a =>
        let chunk_size := self.(compute_chunk_size) (shape a) 8 kernel preview in
        from_array a chunk_size
    end in
  let* darray :=
    match kernel with
    | Some kernel =>
        let hw := match hw with Some hw => hw | None => half_window kernel end in
        let b := match b with lazy_values b => values (self.(da_compute) b) | _ => b end in
        overlap darray hw b
    | None => Ok darray
    end in
  let chunks_init := chunks darray in
  Ok (darray, chunks_init).

(** *** hilbert, envelope, instantaneous_phase *)

Definition hilbert (darray : volume) (kernel : triple) (preview : option preview)
  : result (dask_array complex) :=
  let* created := create_array darray (Some kernel) None reflect preview in
  let '(darray, chunks_init) := created in
  let analytical_trace := map_blocks self.(hilbert_cb) darray in
  Ok (trim_dask_array analytical_trace kernel).

Definition envelope (darray : volume) (kernel : triple) (preview : option preview)
  : result (dask_array float) :=
  let* created := create_array darray (Some kernel) None reflect preview in
  let '(darray, chunks_init) := created in
  let analytical_trace := map_blocks self.(hilbert_cb) darray in
  let result := elemwise self.(cabs) analytical_trace in
  Ok (trim_dask_array result kernel).

Definition instantaneous_phase (darray : volume) (kernel : triple)
    (preview : option preview) : result (dask_array float) :=
  let* created := create_array darray (Some kernel) None reflect preview in
  let '(darray, chunks_init) := created in
  let analytical_trace := map_blocks self.(hilbert_cb) darray in
  let result := elemwise self.(rad2deg) (elemwise angle analytical_trace) in
  Ok (trim_dask_array result kernel).

Definition cosine_instantaneous_phase (darray : volume) (kernel : triple)
    (preview : option preview) : result (dask_array float) :=
  let* created := create_array darray None None reflect preview in
  let '(darray, chunks_init) := created in
  let* phase := instantaneous_phase (Dask darray) kernel None in
  Ok (elemwise self.(rad2deg) (elemwise angle_real phase)).

(** *** amplitude attributes *)

Definition relative_amplitude_change (darray : volume) (kernel : triple)
    (preview : option preview) : result (dask_array float) :=
  let* created := create_array darray None None reflect preview in
  let '(darray, chunks_init) := created in
  let* env := envelope (Dask darray) kernel None in
  let env_prime := first_derivative env in
  let* result := elemwise2 fdiv env_prime env in
  Ok (elemwise (clip minus_one one) result).

Definition amplitude_acceleration (darray : volume) (kernel : triple)
    (preview : option preview) : result (dask_array float) :=
  let* created := create_array darray None None reflect preview in
  let '(darray, chunks_init) := created in
  let* rac := relative_amplitude_change (Dask darray) kernel None in
  Ok (first_derivative rac).

(** *** frequency attributes *)

Definition instantaneous_frequency (darray : volume) (sample_rate : number)
    (kernel : triple) (preview : option preview) : result (dask_array float) :=
  let* created := create_array darray (Some (1, 1, 25)%Z) None reflect preview in
  let '(darray, chunks_init) := created in
  let* fs := truediv_1000 sample_rate in
  let* phase := instantaneous_phase (Dask darray) kernel None in
  let phase := elemwise self.(deg2rad) phase in
  let phase := map_blocks self.(unwrap) phase in
  let phase_prime := first_derivative phase in
  Ok (elemwise fabs
        (elemwise (λ x, fmul (fdiv x (fmul two pi)) fs) phase_prime)).

Definition instantaneous_bandwidth (darray : volume) (kernel : triple)
    (preview : option preview) : result (dask_array float) :=
  let* created := create_array darray None None reflect preview in
  let '(darray, chunks_init) := created in
  let* rac := relative_amplitude_change (Dask darray) kernel None in
  Ok (elemwise (λ x, fdiv x (fmul two pi)) (elemwise fabs rac)).

Definition dominant_frequency (darray : volume) (sample_rate : number)
    (kernel : triple) (preview : option preview) : result (dask_array float) :=
  let* created := create_array darray None None reflect preview in
  let '(darray, chunks_init) := created in
  let* inst_freq := instantaneous_frequency (Dask darray) sample_rate kernel None in
  let* inst_band := instantaneous_bandwidth (Dask darray) kernel None in
  elemwise2 self.(hypot) inst_freq inst_band.


Definition sweetness (darray : volume) (sample_rate : number)
    (kernel : triple) (preview : option preview) : result (dask_array float) :=
  let* created := create_array darray None None reflect preview in
  let '(darray, chunks_init) := created in
  let* inst_freq := instantaneous_frequency (Dask darray) sample_rate kernel None in
  let inst_freq := map_blocks func inst_freq in
  let* env := envelope (Dask darray) kernel None in
  elemwise2 fdiv env inst_freq.

Definition quality_factor (darray : volume) (sample_rate : number)
    (kernel : triple) (preview : option preview) : result (dask_array float) :=
  let* created := create_array darray None None reflect preview in
  let '(darray, chunks_init) := created in
  let* inst_freq := instantaneous_frequency (Dask darray) sample_rate kernel None in
  let* rac := relative_amplitude_change (Dask darray) kernel None in
  elemwise2 fdiv (elemwise (fmul pi) inst_freq) rac.

(** *** response attributes and apparent polarity *)

Definition troughs_of (env : dask_array float) : dask_array Z :=
  let troughs := map_blocks (local_events flt) env in
  da_cumsum troughs.

Definition response_phase (darray : volume) (kernel : triple)
    (preview : option preview) : result (dask_array float) :=
  let* created := create_array darray None None reflect preview in
  let '(darray, chunks_init) := created in
  let* env := envelope (Dask darray) kernel None in
  let* phase := instantaneous_phase (Dask darray) kernel None in
  let troughs := troughs_of env in
  let* result := map_blocks3 response_phase_operation env phase troughs in
  Ok (setitem_isnan_zero result).

Definition response_frequency (darray : volume) (sample_rate : number)
    (kernel : triple) (preview : option preview) : result (dask_array float) :=
  let* created := create_array darray None None reflect preview in
  let '(darray, chunks_init) := created in
  let* env := envelope (Dask darray) kernel None in
  let* inst_freq := instantaneous_frequency (Dask darray) sample_rate kernel None in
  let troughs := troughs_of env in
  let* result := map_blocks3 response_frequency_operation env inst_freq troughs in
  Ok (setitem_isnan_zero result).

Definition response_amplitude (darray : volume) (kernel : triple)
    (preview : option preview) : result (dask_array float) :=
  let* created := create_array darray None None reflect preview in
  let '(darray, chunks_init) := created in
  let* env := envelope (Dask darray) kernel None in
  let troughs := troughs_of env in
  let* result := map_blocks3 response_amplitude_operation env darray troughs in
  Ok (setitem_isnan_zero result).

Definition apparent_polarity (darray : volume) (kernel : triple)
    (preview : option preview) : result (dask_array float) :=
  let* created := create_array darray None None reflect preview in
  let '(darray, chunks_init) := created in
  let* env := envelope (Dask darray) kernel None in
  let troughs := troughs_of env in
  let* result := map_blocks3 apparent_polarity_operation env darray troughs in
  Ok (setitem_isnan_zero result).

End Methods.

End Attributes.

Export Attributes.

(** ** The constructor *)

Module Constructor.

Section Init.

Context {pyobject : Type}.

(** [ComplexAttributes.__init__]: the attributes of the new instance, its
    [__dict__], from the keyword arguments.
<<
        if "numpy_backend" in kwargs:
            self.xp = kwargs["numpy_backend"]
        if "hilbert_cb" in kwargs:
            self.hilbert_cb = kwargs["hilbert_cb"]
>> *)
Definition __init__ (args : list pyobject) (kwargs : gmap string pyobject)
  : gmap string pyobject :=
  let self : gmap string pyobject := ∅ in
  let self :=
    match kwargs !! "numpy_backend" with
    | Some v => <["xp" := v]> self
    | None => self
    end in
  match kwargs !! "hilbert_cb" with
  | Some v => <["hilbert_cb" := v]> self
  | None => self
  end.

End Init.

End Constructor.

Export Constructor.

(** ** A runtime for small examples *)

Module Probe.

(** The running sum along the fast axis of an array cut along that axis
    only: on every trace a block starts from the count that the block
    before it has reached. *)
Fixpoint cumsum_along (carry : list (list Z)) (bs : list (ndarray bool))
  : list (ndarray Z) :=
  match bs with
  | [] => []
  | b :: bs' =>
      let out := zip_with (zip_with cumsum_from) carry b in
      let carry' := zip_with (zip_with (λ c t, default c (last t))) carry out in
      out :: cumsum_along carry' bs'
  end.

(** An instance for evaluating the methods on small arrays cut along the
    fast axis, with a kernel of (1, 1, 1), that is, without halo.  The
    callback returns its input with a zero imaginary part, and [cabs] is the
    magnitude of such a number.  [overlap_blocks] returns the blocks as
    they are, which is the halo exchange of depth 0; the rechunking of
    [overlap] gives up, and so do the alignment steps.  The fields that the
    examples do not reach (the angle and its conversions, [hypot],
    [unwrap], the chunk planner and [from_array]) return NaN, or nothing. *)
Definition runtime : ComplexAttributes := {|
  hilbert_cb := cmap (λ x, (x, zero));
  cabs := λ z, fabs z.1;
  arctan2 := λ _ _, nan;
  rad2deg := λ _, nan;
  deg2rad := λ _, nan;
  hypot := λ _ _, nan;
  unwrap := cmap (λ _, nan);
  compute_chunk_size := λ _ _ _ _, (1, 1, 1)%Z;
  from_array_chunks := λ _ _, ([], [], []);
  from_array_blocks := λ _ _, [];
  overlap_blocks := λ x _ _, blocks x;
  overlap_rechunk := λ _ _ _, None;
  da_compute := λ _, [];
  cumsum_blocks := λ x,
    match blocks x with
    | [] => []
    | b :: _ =>
        cumsum_along
          ((λ row : list (list bool), (λ _, 0%Z) <$> row) <$> b) (blocks x)
    end;
  unify_chunks2 := λ _ _, Raise ValueError;
  blockwise3 := λ _ _ _, Raise ValueError;
  first_derivative_blocks := blocks
|}.

End Probe.

(** ** Vocabulary of the statements *)

Module MaxOrder.

(** The order in which numpy's [max] and [argmax] rank floats: the usual
    order, with NaN above everything ("nan encountered; it's maximal"). *)
Definition max_le (x y : float) : bool := isnan y || fle x y.
Definition max_lt (x y : float) : bool := negb (max_le y x).

(** A float as a point of a lexicographic order on integer triples. *)
Definition key (x : float) : Z * Z * Z :=
  match x with
  | S754_nan => (3, 0, 0)
  | S754_infinity true => (-2, 0, 0)
  | S754_infinity false => (2, 0, 0)
  | S754_zero _ => (0, 0, 0)
  | S754_finite true m e => (-1, - e, Z.neg m)
  | S754_finite false m e => (1, e, Z.pos m)
  end%Z.

Definition key_le (a b : Z * Z * Z) : Prop :=
  (a.1.1 < b.1.1 ∨
   (a.1.1 = b.1.1 ∧ (a.1.2 < b.1.2 ∨ (a.1.2 = b.1.2 ∧ a.2 ≤ b.2))))%Z.

End MaxOrder.

Export MaxOrder.

Module Engine.

(** [p] is the peak of the reference over the positions [seg]: it is one of
    them, no sample of [seg] exceeds the reference at [p], and every sample
    of [seg] before [p] is strictly below it (first occurrence on ties). *)
Definition is_peak (reference : list float) (seg : list nat) (p : nat) : Prop :=
  p ∈ seg ∧
  ∃ rp, reference !! p = Some rp ∧
    ∀ m rm, m ∈ seg → reference !! m = Some rm →
      max_le rm rp = true ∧ (m < p → max_lt rm rp = true).

(** The loops the four [operation] closures share, with the value written
    to a segment left open: [value i j peak].  One iteration of the inner
    loop, one iteration of the outer loop, and the whole closure. *)
Definition pick_segment (value : nat → nat → nat → result float)
    (chunk1 : ndarray float) (chunk3 : ndarray Z) (i j : nat)
    (out : ndarray float) (ii : Z) : result (ndarray float) :=
  let* row := trace_at chunk3 i j in
  let idx := where_eq row ii in
  let* sel := getitem_fancy3 chunk1 i j idx in
  let* a := argmax sel in
  let* peak := getitem idx a in
  let* v := value i j peak in
  setitem_fancy3 out i j idx v.

Definition pick_trace (value : nat → nat → nat → result float)
    (chunk1 : ndarray float) (chunk3 : ndarray Z)
    (out : ndarray float) (ij : nat * nat) : result (ndarray float) :=
  let '(i, j) := ij in
  let* row := trace_at chunk3 i j in
  let ints := unique row in
  for_each (pick_segment value chunk1 chunk3 i j) ints out.

Definition peak_pick (value : nat → nat → nat → result float)
    (chunk1 : ndarray float) (chunk3 : ndarray Z) : result (ndarray float) :=
  let out := zeros (shape chunk1) in
  for_each (pick_trace value chunk1 chunk3)
    (ndindex (shape out).1.1 (shape out).1.2) out.

(** The value of the take-companion closures and of [apparent_polarity]. *)
Definition take_companion (chunk2 : ndarray float) (i j peak : nat) : result float :=
  getitem3 chunk2 i j peak.

Definition signed_peak (chunk1 chunk2 : ndarray float) (i j peak : nat)
  : result float :=
  let* r := getitem3 chunk1 i j peak in
  let* c := getitem3 chunk2 i j peak in
  Ok (fmul r (sign c)).

(** Extents no larger, axis by axis. *)
Definition shape_le (s s' : shape3) : Prop :=
  s.1.1 ≤ s'.1.1 ∧ s.1.2 ≤ s'.1.2 ∧ s.2 ≤ s'.2.

#[global] Instance shape_le_dec (s s' : shape3) : Decision (shape_le s s').
Proof. unfold shape_le. apply _. Defined.

(** What the loops leave on trace (i, j) of [out]: every sample holds the
    value picked at the peak of its segment. *)
Definition trace_done (value : nat → nat → nat → result float)
    (chunk1 : ndarray float) (chunk3 : ndarray Z)
    (out : ndarray float) (i j : nat) : Prop :=
  ∀ reference ids k ii,
    trace_at chunk1 i j = Ok reference → trace_at chunk3 i j = Ok ids →
    ids !! k = Some ii →
    ∃ peak v, is_peak reference (where_eq ids ii) peak ∧
              value i j peak = Ok v ∧ getitem3 out i j k = Ok v.










(** The dask array [create_array] starts from: a dask input as it is, an
    array in memory cut into the planner's chunks. *)
Definition as_dask (self : ComplexAttributes) (darray : volume)
    (kernel : option triple) (preview : option preview) : dask_array float :=
  match darray with
  | Dask d => d
  | Numpy a => from_array self a (self.(compute_chunk_size) (shape a) 8 kernel preview)
  end.

End Engine.

Export Engine.

(** * Properties *)

(** ** The order of binary64 and numpy's maximum *)

Module FloatFacts.

(** Case analysis on a float and on its sign bit. *)
Ltac float_cases x :=
  let s := fresh "s" in
  destruct x as [s|s| |s ? ?]; try destruct s; try done.

Lemma compare_cont_Eq (m n : positive) :
  Pos.compare_cont Eq m n = (m ?= n)%positive.
Proof. reflexivity. Qed.

Lemma max_le_key (x y : float) : max_le x y = true ↔ key_le (key x) (key y).
Proof.
  unfold max_le, fle, SFleb, SFcompare, key_le.
  destruct x as [[]|[]| |[] m e], y as [[]|[]| |[] m' e']; simpl;
    try (split; [intros; lia | intros; (reflexivity || lia)]);
    try (split; [discriminate | lia]).
  - rewrite compare_cont_Eq.
    destruct (Z.compare_spec e e'), (Pos.compare_spec m m'); simpl;
      split; intros; try discriminate; try reflexivity; lia.
  - rewrite compare_cont_Eq.
    destruct (Z.compare_spec e e'), (Pos.compare_spec m m'); simpl;
      split; intros; try discriminate; try reflexivity; lia.
Qed.

Lemma max_lt_key (x y : float) :
  max_lt x y = true ↔ ¬ key_le (key y) (key x).
Proof.
  unfold max_lt. rewrite negb_true_iff, <- not_true_iff_false, max_le_key.
  reflexivity.
Qed.

Lemma max_le_refl (x : float) : max_le x x = true.
Proof. apply max_le_key. unfold key_le. lia. Qed.

Lemma max_le_trans (x y z : float) :
  max_le x y = true → max_le y z = true → max_le x z = true.
Proof. rewrite !max_le_key. unfold key_le. lia. Qed.

Lemma max_le_lt_trans (x y z : float) :
  max_le x y = true → max_lt y z = true → max_lt x z = true.
Proof. rewrite !max_lt_key, !max_le_key. unfold key_le. lia. Qed.

Lemma max_lt_le (x y : float) : max_lt x y = true → max_le x y = true.
Proof. rewrite max_lt_key, !max_le_key. unfold key_le. lia. Qed.

Lemma max_le_total (x y : float) : max_le x y = false → max_lt y x = true.
Proof. unfold max_lt. intros ->. reflexivity. Qed.

(** Away from NaN the maximum order is the comparison of the format. *)
Lemma max_le_fle (x y : float) :
  isnan y = false → max_le x y = fle x y.
Proof. unfold max_le. intros ->. reflexivity. Qed.

Lemma max_lt_flt (x y : float) :
  isnan x = false → isnan y = false → max_lt x y = flt x y.
Proof.
  intros Hx Hy. apply eq_true_iff_eq. rewrite max_lt_key.
  unfold flt, SFltb, SFcompare, key_le.
  destruct x as [[]|[]| |[] m e], y as [[]|[]| |[] m' e']; simpl in *;
    try discriminate;
    try (split; [intros; (reflexivity || lia) | intros; lia]);
    try (split; [lia | discriminate]).
  - rewrite compare_cont_Eq.
    destruct (Z.compare_spec e e'), (Pos.compare_spec m m'); simpl;
      split; intros; try discriminate; try reflexivity; lia.
  - rewrite compare_cont_Eq.
    destruct (Z.compare_spec e e'), (Pos.compare_spec m m'); simpl;
      split; intros; try discriminate; try reflexivity; lia.
Qed.

Lemma flt_fle (x y : float) : flt x y = true → fle x y = true.
Proof.
  unfold flt, fle, SFltb, SFleb. destruct (SFcompare x y) as [[]|]; done.
Qed.

(** Multiplying by 1 or by -1 is exact: the product of the mantissa with
    2^52 is shifted back by 52 places with nothing lost. *)
Lemma fmul_finite_unit (s : bool) (m : positive) (e : Z) :
  valid (S754_finite s m e) = true →
  binary_round_aux prec emax s (Z.pos (m * 4503599627370496)) (e + -52) loc_Exact
  = S754_finite s m e.
Proof.
  unfold valid, valid_binary, bounded, canonical_mantissa.
  intros [Hc Hb]%andb_true_iff. apply Z.eqb_eq in Hc.
  rewrite Pos.mul_comm.
  set (mm := (4503599627370496 * m)%positive). cbv in mm. subst mm.
  unfold binary_round_aux.
  unfold shr_fexp at 1.
  unfold Zdigits2 at 1. cbn [digits2_pos].
  rewrite !Pos2Z.inj_succ.
  match goal with |- context [fexp prec emax ?a] =>
    replace a with (Z.pos (digits2_pos m) + e)%Z by lia end.
  rewrite Hc.
  replace (e - (e + -52))%Z with 52%Z by lia.
  cbn [shr shr_record_of_loc SpecFloat.iter_pos shr_1 orb shr_m
       loc_of_shr_record round_nearest_even].
  replace (e + -52 + 52)%Z with e by lia.
  unfold shr_fexp, Zdigits2. rewrite Hc, Z.sub_diag.
  cbn [shr shr_record_of_loc shr_m].
  rewrite Hb. reflexivity.
Qed.

Lemma fmul_one_r (x : float) : valid x = true → fmul x one = x.
Proof.
  destruct x as [[]|[]| |s m e]; try reflexivity.
  intros Hv. unfold fmul, SFmul, one. rewrite xorb_false_r.
  by apply fmul_finite_unit.
Qed.

Lemma fmul_minus_one_r (x : float) :
  valid x = true → fmul x minus_one = SFopp x.
Proof.
  destruct x as [[]|[]| |s m e]; try reflexivity.
  intros Hv. unfold fmul, SFmul, minus_one. rewrite xorb_true_r.
  by apply fmul_finite_unit.
Qed.

End FloatFacts.

Export FloatFacts.

(** ** Blocks, elements and trimming *)

Module ArrayFacts.

Lemma elements_cmap {A B : Type} (f : A → B) (c : ndarray A) :
  elements (cmap f c) = f <$> elements c.
Proof.
  unfold elements, cmap.
  induction c as [|row c IH]; [done|].
  rewrite fmap_cons. cbn [concat]. rewrite !concat_app, fmap_app, <- IH. f_equal.
  clear. induction row as [|t row IH]; [done|].
  rewrite fmap_cons. cbn [concat]. rewrite fmap_app, <- IH. done.
Qed.

Lemma da_elements_elemwise {A B : Type} (f : A → B) (d : dask_array A) :
  da_elements (elemwise f d) = f <$> da_elements d.
Proof.
  unfold da_elements, elemwise, map_blocks. cbn [blocks].
  induction (blocks d) as [|b bs IH]; [done|].
  rewrite fmap_cons, !bind_cons, fmap_app, elements_cmap, IH. done.
Qed.

#[local] Arguments trim_axis : simpl never.

Lemma trim_axis_fmap {A B : Type} (f : A → B) (h : Z) (l : list A) :
  trim_axis h (f <$> l) = f <$> trim_axis h l.
Proof. unfold trim_axis. rewrite fmap_take, fmap_drop, length_fmap. done. Qed.

(** Trimming a block commutes with an elementwise function. *)
Lemma trim_block_cmap {A B : Type} (f : A → B) (hw : triple) (c : ndarray A) :
  trim_block hw (cmap f c) = cmap f (trim_block hw c).
Proof.
  destruct hw as [[h0 h1] h2]. unfold trim_block, cmap.
  rewrite <- trim_axis_fmap. f_equal.
  rewrite <- !list_fmap_compose. apply list_fmap_ext. intros _ row _. cbn.
  rewrite <- trim_axis_fmap. f_equal.
  rewrite <- !list_fmap_compose. apply list_fmap_ext. intros _ t _. cbn.
  rewrite trim_axis_fmap. done.
Qed.

Lemma trim_dask_array_elemwise {A B : Type} (f : A → B) (d : dask_array A)
    (kernel : triple) :
  trim_dask_array (elemwise f d) kernel = elemwise f (trim_dask_array d kernel).
Proof.
  unfold trim_dask_array, elemwise, map_blocks. cbn [chunks blocks]. f_equal.
  rewrite <- !list_fmap_compose. apply list_fmap_ext. intros _ c _. cbn.
  apply trim_block_cmap.
Qed.

Lemma fmap_add_sub (h : Z) (cs : list Z) :
  (λ c, c - 2 * h)%Z <$> ((λ c, c + 2 * h)%Z <$> cs) = cs.
Proof.
  rewrite <- list_fmap_compose. rewrite <- (list_fmap_id cs) at 2.
  apply list_fmap_ext. intros _ c _. cbn. lia.
Qed.

(** Trimming undoes the growth of the chunks by [overlap]. *)
Lemma trim_overlap_chunks (hw : triple) (cs : chunks3) :
  trim_chunks hw (overlap_chunks hw cs) = cs.
Proof.
  destruct hw as [[h0 h1] h2], cs as [[c0 c1] c2].
  unfold trim_chunks, overlap_chunks, map_chunks.
  rewrite !fmap_add_sub. done.
Qed.

Lemma extent_fmap_add (h : Z) (cs : list Z) :
  extent ((λ c, c + h)%Z <$> cs) = (extent cs + h * Z.of_nat (length cs))%Z.
Proof.
  unfold extent. induction cs as [|c cs IH].
  - cbn. lia.
  - rewrite fmap_cons. cbn [foldr length]. rewrite IH. lia.
Qed.

End ArrayFacts.

Export ArrayFacts.

(** ** The methods: chunks and elements *)

Module MethodFacts.

Lemma clip_bounds (q : float) :
  isnan q = false →
  fle minus_one (clip minus_one one q) = true ∧
  fle (clip minus_one one q) one = true.
Proof.
  intros Hq. unfold clip. rewrite Hq.
  destruct (flt minus_one q) eqn:Hlo.
  - rewrite Hq. destruct (flt q one) eqn:Hhi.
    + split; by apply flt_fle.
    + split; reflexivity.
  - split; reflexivity.
Qed.

(** [func] on one element: the result is never zero, it is at least 5
    unless the element is NaN, and a NaN stays. *)
Lemma floor_five (x : float) :
  let d := if flt x five then five else x in
  feq d zero = false ∧
  (isnan x = false → fle five d = true) ∧
  (isnan x = true → d = nan).
Proof.
  cbn zeta. destruct (flt x five) eqn:Hlt.
  - repeat split; try reflexivity. intros Hn. by float_cases x.
  - repeat split.
    + by float_cases x.
    + intros Hn. rewrite <- max_le_fle by done.
      rewrite <- max_lt_flt in Hlt by done.
      unfold max_lt in Hlt. by apply negb_false_iff in Hlt.
    + intros Hn. by float_cases x.
Qed.

Lemma setitem_isnan_zero_elements (result : dask_array float) :
  da_elements (setitem_isnan_zero result) =
    (λ x, if isnan x then zero else x) <$> da_elements result.
Proof. apply da_elements_elemwise. Qed.

Lemma setitem_isnan_zero_no_nan (result : dask_array float) :
  Forall (λ x, isnan x = false) (da_elements (setitem_isnan_zero result)).
Proof.
  rewrite setitem_isnan_zero_elements. apply Forall_fmap, Forall_forall.
  intros x _. cbn. by float_cases x.
Qed.
End MethodFacts.

Export MethodFacts.

(** ** Labels, segments and peaks on one trace *)

Module TraceFacts.

Lemma elem_of_insert_unique (x y : Z) (l : list Z) :
  y ∈ insert_unique x l ↔ y = x ∨ y ∈ l.
Proof.
  induction l as [|z l IH]; cbn [insert_unique].
  - rewrite elem_of_cons. tauto.
  - repeat case_decide; subst; rewrite ?elem_of_cons, ?IH; tauto.
Qed.

Lemma elem_of_unique (x : Z) (a : list Z) : x ∈ unique a ↔ x ∈ a.
Proof.
  unfold unique. induction a as [|y a IH]; cbn [foldr]; [done|].
  rewrite elem_of_insert_unique, IH, elem_of_cons. tauto.
Qed.

Lemma insert_unique_sorted (x : Z) (l : list Z) :
  StronglySorted Z.lt l → StronglySorted Z.lt (insert_unique x l).
Proof.
  induction 1 as [|y l Hs IH Hy]; cbn [insert_unique].
  - repeat constructor.
  - repeat case_decide.
    + constructor; [by constructor|]. constructor; [done|].
      eapply Forall_impl; [exact Hy|]. intros; cbn in *; lia.
    + by constructor.
    + constructor; [done|]. apply Forall_forall. intros w Hw.
      apply elem_of_insert_unique in Hw as [->|Hw]; [lia|].
      by eapply Forall_forall in Hy.
Qed.

Lemma unique_sorted (a : list Z) : StronglySorted Z.lt (unique a).
Proof.
  unfold unique. induction a as [|y a IH]; cbn [foldr]; [constructor|].
  by apply insert_unique_sorted.
Qed.

Lemma StronglySorted_lt_NoDup {A : Type} (R : relation A) `{!Irreflexive R}
    (l : list A) :
  StronglySorted R l → NoDup l.
Proof.
  induction 1 as [|x l Hs IH Hx]; constructor; [|done].
  intros Hin. eapply Forall_forall in Hx; [|done]. by eapply irreflexivity in Hx.
Qed.

Lemma unique_NoDup (a : list Z) : NoDup (unique a).
Proof. eapply StronglySorted_lt_NoDup; [|apply unique_sorted]. apply _. Qed.

Lemma elem_of_where_eq (a : list Z) (ii : Z) (k : nat) :
  k ∈ where_eq a ii ↔ a !! k = Some ii.
Proof.
  unfold where_eq. rewrite list_elem_of_filter, elem_of_seq. split.
  - by intros [? _].
  - intros H. split; [done|]. apply lookup_lt_Some in H. lia.
Qed.

Lemma where_eq_lt (a : list Z) (ii : Z) (k : nat) :
  k ∈ where_eq a ii → k < length a.
Proof. rewrite elem_of_where_eq. apply lookup_lt_Some. Qed.

Lemma filter_seq_sorted (P : nat → Prop) `{!∀ k, Decision (P k)} (j n : nat) :
  StronglySorted lt (filter P (seq j n)).
Proof.
  revert j. induction n as [|n IH]; intros j; cbn [seq]; [constructor|].
  rewrite filter_cons. case_decide; [|done].
  constructor; [done|]. apply Forall_forall. intros k Hk.
  apply list_elem_of_filter in Hk as [_ Hk]. apply elem_of_seq in Hk. lia.
Qed.

Lemma where_eq_sorted (a : list Z) (ii : Z) : StronglySorted lt (where_eq a ii).
Proof. apply filter_seq_sorted. Qed.


Lemma sorted_lookup_lt (l : list nat) (m n a b : nat) :
  StronglySorted lt l → l !! m = Some a → l !! n = Some b → m < n → a < b.
Proof.
  intros Hs. revert m n. induction Hs as [|x l Hs IH Hx]; intros m n Hm Hn Hlt.
  - done.
  - destruct n as [|n]; [lia|]. destruct m as [|m].
    + cbn in Hm, Hn. simplify_eq. eapply Forall_forall in Hx; [done|].
      by eapply list_elem_of_lookup_2.
    + cbn in Hm, Hn. eapply IH; [done..|lia].
Qed.

Lemma sorted_lookup_lt_inv (l : list nat) (m n a b : nat) :
  StronglySorted lt l → l !! m = Some a → l !! n = Some b → a < b → m < n.
Proof.
  intros Hs Hm Hn Hab. destruct (decide (m < n)) as [|Hge]; [done|].
  destruct (decide (m = n)) as [->|Hne]; [simplify_eq; lia|].
  assert (b < a) by (eapply sorted_lookup_lt; [done..|lia]). lia.
Qed.

(** Fancy indexing within range returns the selected entries. *)
Lemma getitem_fancy_ok {A : Type} (a : list A) (idx : list nat) :
  Forall (λ k, k < length a) idx →
  ∃ sel, getitem_fancy a idx = Ok sel ∧ Forall2 (λ k x, a !! k = Some x) idx sel.
Proof.
  induction 1 as [|k idx Hk _ (sel & Hsel & HF)]; cbn [getitem_fancy].
  - exists []. split; [done|constructor].
  - apply lookup_lt_is_Some in Hk as [x Hx].
    unfold getitem. rewrite Hx. cbn [bind]. rewrite Hsel. cbn [bind].
    exists (x :: sel). split; [done|]. by constructor.
Qed.

(** Assignment through an index array within range: the positions listed
    take the value, the others keep theirs. *)
Lemma put_ok {A : Type} (a : list A) (idx : list nat) (v : A) :
  Forall (λ k, k < length a) idx →
  ∃ a', put a idx v = Ok a' ∧ length a' = length a ∧
        ∀ k, a' !! k = if decide (k ∈ idx) then (if decide (k < length a) then Some v else None)
                       else a !! k.
Proof.
  intros H. revert a H. induction idx as [|i idx IH]; intros a H.
  - exists a. split; [done|]. split; [done|]. intros k.
    case_decide as Hin; [by apply elem_of_nil in Hin|done].
  - apply Forall_cons in H as [Hi H]. cbn [put]. case_decide; [|done].
    destruct (IH (<[i := v]> a)) as (a' & Ha' & Hlen & Hlook).
    { by rewrite length_insert. }
    rewrite length_insert in Hlen.
    exists a'. split; [done|]. split; [done|]. intros k. rewrite Hlook.
    rewrite length_insert.
    destruct (decide (k ∈ idx)) as [Hin|Hnin].
    + destruct (decide (k ∈ i :: idx)) as [_|Hn]; [done|].
      exfalso. apply Hn. by right.
    + destruct (decide (k = i)) as [->|Hne].
      * destruct (decide (i ∈ i :: idx)) as [_|Hn]; [|exfalso; apply Hn; by left].
        rewrite decide_True by done. by apply list_lookup_insert_eq.
      * destruct (decide (k ∈ i :: idx)) as [Hin|_].
        -- apply elem_of_cons in Hin as [?|?]; done.
        -- by apply list_lookup_insert_ne.
Qed.

Lemma argmax_loop_spec (pre ip : list float) (mp : float) (max_ind : nat) :
  pre !! max_ind = Some mp →
  (∀ m xm, pre !! m = Some xm →
     max_le xm mp = true ∧ (m < max_ind → max_lt xm mp = true)) →
  ∃ xa, (pre ++ ip) !! argmax_loop mp max_ind (length pre) ip = Some xa ∧
    ∀ m xm, (pre ++ ip) !! m = Some xm →
      max_le xm xa = true ∧
      (m < argmax_loop mp max_ind (length pre) ip → max_lt xm xa = true).
Proof.
  revert pre mp max_ind. induction ip as [|x ip IH]; intros pre mp max_ind Hmp Hinv.
  - cbn [argmax_loop]. rewrite app_nil_r. by exists mp.
  - cbn [argmax_loop]. pose proof (lookup_lt_Some _ _ _ Hmp) as Hlt.
    destruct (isnan mp) eqn:Hnan.
    + exists mp. split; [by apply lookup_app_l_Some|].
      intros m xm Hm. split.
      * unfold max_le. by rewrite Hnan.
      * intros Hlt'. apply (Hinv m xm); [|done].
        rewrite lookup_app_l in Hm by lia. done.
    + destruct (fle x mp) eqn:Hle.
      * specialize (IH (pre ++ [x]) mp max_ind).
        rewrite length_app, Nat.add_1_r, <- app_assoc in IH. cbn [app] in IH.
        apply IH; [by apply lookup_app_l_Some|].
        intros m xm Hm. apply lookup_app_Some in Hm as [Hm|[Hge Hm]].
        -- by apply Hinv.
        -- apply list_lookup_singleton_Some in Hm as [_ <-]. split.
           ++ unfold max_le. by rewrite Hnan, Hle.
           ++ lia.
      * specialize (IH (pre ++ [x]) x (length pre)).
        rewrite length_app, Nat.add_1_r, <- app_assoc in IH. cbn [app] in IH.
        apply IH.
        { rewrite lookup_app_r by lia. by rewrite Nat.sub_diag. }
        assert (max_lt mp x = true) as Hmx.
        { unfold max_lt, max_le. by rewrite Hnan, Hle. }
        intros m xm Hm. apply lookup_app_Some in Hm as [Hm|[Hge Hm]].
        -- destruct (Hinv m xm Hm) as [Hmle _].
           assert (max_lt xm x = true) by (by eapply max_le_lt_trans).
           split; [by apply max_lt_le|done].
        -- apply list_lookup_singleton_Some in Hm as [Hm <-]. split.
           ++ apply max_le_refl.
           ++ lia.
Qed.

(** [argmax] on a non-empty array: the first position of a maximum, in the
    order that has NaN on top. *)
Lemma argmax_spec (sel : list float) :
  sel ≠ [] →
  ∃ a xa, argmax sel = Ok a ∧ sel !! a = Some xa ∧
    ∀ m xm, sel !! m = Some xm →
      max_le xm xa = true ∧ (m < a → max_lt xm xa = true).
Proof.
  destruct sel as [|x sel]; [done|]. intros _.
  destruct (argmax_loop_spec [x] sel x 0) as (xa & Ha & Hmax); [done| |].
  { intros [|m] xm Hm; [|done]. cbn in Hm. simplify_eq. split; [apply max_le_refl|lia]. }
  exists (argmax_loop x 0 1 sel), xa. done.
Qed.

(** The three lines that pick a peak,
    [idx]; [chunk1[i, j, idx].argmax()]; [idx[...]],
    on a non-empty ascending index array within the reference. *)
Lemma pick_peak (reference : list float) (idx : list nat) :
  idx ≠ [] → StronglySorted lt idx → Forall (λ k, k < length reference) idx →
  ∃ sel a peak,
    getitem_fancy reference idx = Ok sel ∧ argmax sel = Ok a ∧
    getitem idx a = Ok peak ∧ is_peak reference idx peak.
Proof.
  intros Hne Hsorted Hrange.
  destruct (getitem_fancy_ok reference idx Hrange) as (sel & Hsel & HF).
  destruct (argmax_spec sel) as (a & xa & Ha & Hxa & Hmax).
  { intros ->. apply Forall2_nil_inv_r in HF. done. }
  destruct (Forall2_lookup_r _ _ _ _ _ HF Hxa) as (peak & Hpeak & Hrp).
  exists sel, a, peak. split; [done|]. split; [done|]. split.
  { unfold getitem. by rewrite Hpeak. }
  split; [by eapply list_elem_of_lookup_2|].
  exists xa. split; [done|]. intros m rm Hm Hrm.
  apply list_elem_of_lookup in Hm as [n Hn].
  destruct (Forall2_lookup_l _ _ _ _ _ HF Hn) as (xm & Hxm & Hrm').
  assert (xm = rm) as -> by congruence.
  destruct (Hmax n rm Hxm) as [Hle Hlt]. split; [done|].
  intros Hmp. apply Hlt. by eapply sorted_lookup_lt_inv.
Qed.

(** On a segment free of NaN the peak is the first maximum in the plain
    order of the format. *)
Lemma is_peak_ordinary (reference : list float) (seg : list nat) (p : nat) :
  is_peak reference seg p →
  (∀ m rm, m ∈ seg → reference !! m = Some rm → isnan rm = false) →
  ∃ rp, reference !! p = Some rp ∧
    ∀ m rm, m ∈ seg → reference !! m = Some rm →
      fle rm rp = true ∧ (m < p → flt rm rp = true).
Proof.
  intros (Hp & rp & Hrp & Hmax) Hnan. exists rp. split; [done|].
  pose proof (Hnan p rp Hp Hrp) as Hrpn.
  intros m rm Hm Hrm. destruct (Hmax m rm Hm Hrm) as [Hle Hlt].
  pose proof (Hnan m rm Hm Hrm) as Hrmn.
  split; [by rewrite <- max_le_fle|].
  intros Hmp. rewrite <- max_lt_flt by done. by apply Hlt.
Qed.

End TraceFacts.

Export TraceFacts.

(** ** The peak-pick loops on a block *)

Module BlockFacts.

Lemma for_each_ext {S X : Type} (f g : S → X → result S) (xs : list X) (s : S) :
  (∀ s x, f s x = g s x) → for_each f xs s = for_each g xs s.
Proof.
  intros H. revert s. induction xs as [|x xs IH]; intros s; [done|].
  cbn [for_each]. rewrite H. destruct (g s x); cbn [bind]; [apply IH|done].
Qed.

Lemma response_phase_operation_peak_pick (chunk1 chunk2 : ndarray float)
    (chunk3 : ndarray Z) :
  response_phase_operation chunk1 chunk2 chunk3 =
    peak_pick (take_companion chunk2) chunk1 chunk3.
Proof. reflexivity. Qed.

Lemma response_frequency_operation_peak_pick (chunk1 chunk2 : ndarray float)
    (chunk3 : ndarray Z) :
  response_frequency_operation chunk1 chunk2 chunk3 =
    peak_pick (take_companion chunk2) chunk1 chunk3.
Proof. reflexivity. Qed.

Lemma response_amplitude_operation_peak_pick (chunk1 chunk2 : ndarray float)
    (chunk3 : ndarray Z) :
  response_amplitude_operation chunk1 chunk2 chunk3 =
    peak_pick (take_companion chunk2) chunk1 chunk3.
Proof. reflexivity. Qed.

Lemma apparent_polarity_operation_peak_pick (chunk1 chunk2 : ndarray float)
    (chunk3 : ndarray Z) :
  apparent_polarity_operation chunk1 chunk2 chunk3 =
    peak_pick (signed_peak chunk1 chunk2) chunk1 chunk3.
Proof.
  unfold apparent_polarity_operation, peak_pick.
  apply for_each_ext. intros out [i j]. unfold pick_trace.
  destruct (trace_at chunk3 i j) as [row|e] eqn:E; cbn [bind]; [|done].
  apply for_each_ext. intros out' ii. unfold pick_segment, signed_peak.
  rewrite E. cbn [bind].
  destruct (getitem_fancy3 chunk1 i j _); cbn [bind]; [|done].
  destruct (argmax _); cbn [bind]; [|done].
  destruct (getitem _ _); cbn [bind]; [|done].
  destruct (getitem3 chunk1 i j _); cbn [bind]; [|done].
  destruct (getitem3 chunk2 i j _); cbn [bind]; done.
Qed.

Lemma elem_of_ndindex (n0 n1 i j : nat) : (i, j) ∈ ndindex n0 n1 ↔ i < n0 ∧ j < n1.
Proof.
  unfold ndindex. rewrite list_elem_of_bind. split.
  - intros (i' & Hj & Hi). apply list_elem_of_fmap in Hj as (j' & ? & Hj).
    simplify_eq. apply elem_of_seq in Hi, Hj. lia.
  - intros [Hi Hj]. exists i. split.
    + apply list_elem_of_fmap. exists j. split; [done|]. apply elem_of_seq. lia.
    + apply elem_of_seq. lia.
Qed.

Lemma NoDup_ndindex (n0 n1 : nat) : NoDup (ndindex n0 n1).
Proof.
  unfold ndindex. apply NoDup_bind.
  - intros i i' [a b] _ _ H1 H2.
    apply list_elem_of_fmap in H1 as (? & ? & _), H2 as (? & ? & _). congruence.
  - intros i _. apply NoDup_fmap_2; [|apply NoDup_seq]. intros ?? ?. congruence.
  - apply NoDup_seq.
Qed.

Lemma trace_at_Ok {A : Type} (c : ndarray A) (i j : nat) (t : list A) :
  trace_at c i j = Ok t ↔ ∃ row, c !! i = Some row ∧ row !! j = Some t.
Proof.
  unfold trace_at, getitem. split.
  - destruct (c !! i) as [row|]; cbn [bind]; [|done].
    destruct (row !! j) eqn:E; [|done]. intros [= ->]. by exists row.
  - intros (row & -> & Hj). cbn [bind]. by rewrite Hj.
Qed.

Lemma has_shape_trace_at {A : Type} (n0 n1 n2 : nat) (c : ndarray A) (i j : nat) :
  has_shape (n0, n1, n2) c → i < n0 → j < n1 →
  ∃ t, trace_at c i j = Ok t ∧ length t = n2.
Proof.
  intros [Hlen Hrows] Hi Hj.
  destruct (lookup_lt_is_Some_2 c i) as [row Hrow]; [lia|].
  eapply Forall_lookup_1 in Hrows as [Hrl Hts]; [|done].
  destruct (lookup_lt_is_Some_2 row j) as [t Ht]; [lia|].
  eapply Forall_lookup_1 in Hts; [|done].
  exists t. split; [|done]. apply trace_at_Ok. by exists row.
Qed.

Lemma has_shape_trace_at_inv {A : Type} (n0 n1 n2 : nat) (c : ndarray A)
    (i j : nat) (t : list A) :
  has_shape (n0, n1, n2) c → trace_at c i j = Ok t →
  i < n0 ∧ j < n1 ∧ length t = n2.
Proof.
  intros [Hlen Hrows] (row & Hrow & Ht)%trace_at_Ok.
  pose proof (lookup_lt_Some _ _ _ Hrow).
  eapply Forall_lookup_1 in Hrows as [Hrl Hts]; [|done].
  pose proof (lookup_lt_Some _ _ _ Ht).
  eapply Forall_lookup_1 in Hts; [|done]. lia.
Qed.

Lemma has_shape_zeros {A : Type} (n0 n1 n2 : nat) (c : ndarray A) :
  has_shape (n0, n1, n2) c → has_shape (n0, n1, n2) (zeros (shape c)).
Proof.
  intros [Hlen Hrows]. unfold shape, zeros, has_shape.
  rewrite length_replicate. split; [done|].
  destruct c as [|row c]; [constructor|].
  apply Forall_cons in Hrows as [[Hrl Hts] _]. cbn [hd].
  apply Forall_replicate. rewrite length_replicate. split; [done|].
  destruct row as [|t row]; [constructor|].
  apply Forall_cons in Hts as [Ht _]. cbn [hd].
  apply Forall_replicate. by rewrite length_replicate.
Qed.

(** [out[i, j, idx] = v] within range: the shape stays, the other traces
    stay, and on trace (i, j) the listed positions take the value. *)
Lemma setitem_fancy3_ok (n0 n1 n2 : nat) (out : ndarray float) (i j : nat)
    (idx : list nat) (v : float) :
  has_shape (n0, n1, n2) out → i < n0 → j < n1 → Forall (λ k, k < n2) idx →
  ∃ out', setitem_fancy3 out i j idx v = Ok out' ∧
    has_shape (n0, n1, n2) out' ∧
    (∀ i' j', (i', j') ≠ (i, j) → trace_at out' i' j' = trace_at out i' j') ∧
    (∀ k, getitem3 out' i j k =
          if decide (k ∈ idx) then Ok v else getitem3 out i j k).
Proof.
  intros Hshape Hi Hj Hidx.
  destruct (has_shape_trace_at _ _ _ _ _ _ Hshape Hi Hj) as (t & Ht & Hlen).
  pose proof Ht as (row & Hrow & Hrt)%trace_at_Ok.
  destruct (put_ok t idx v) as (t' & Hput & Hlen' & Hlook).
  { by rewrite Hlen. }
  exists (<[i := <[j := t']> row]> out).
  destruct Hshape as [Hl Hrows].
  pose proof (Forall_lookup_1 _ _ _ _ Hrows Hrow) as [Hrl Hts].
  split; [|split; [|split]].
  - unfold setitem_fancy3, getitem. rewrite Hrow. cbn [bind].
    rewrite Hrt. cbn [bind]. rewrite Hput. done.
  - split; [by rewrite length_insert|].
    apply Forall_insert; [done|]. split; [by rewrite length_insert|].
    apply Forall_insert; [done|]. lia.
  - intros i' j' Hne. unfold trace_at, getitem.
    destruct (decide (i' = i)) as [->|Hi'].
    + rewrite list_lookup_insert_eq by lia. rewrite Hrow. cbn [bind].
      rewrite list_lookup_insert_ne by congruence. done.
    + rewrite list_lookup_insert_ne by done. done.
  - intros k. unfold getitem3. rewrite Ht. cbn [bind].
    assert (trace_at (<[i := <[j := t']> row]> out) i j = Ok t') as ->.
    { apply trace_at_Ok. exists (<[j := t']> row).
      split; apply list_lookup_insert_eq; lia. }
    cbn [bind]. unfold getitem. rewrite Hlook.
    destruct (decide (k ∈ idx)) as [Hin|]; [|done].
    eapply Forall_forall in Hidx; [|done]. rewrite decide_True by lia. done.
Qed.

Section Loops.

Variable value : nat → nat → nat → result float.
Variables chunk1 : ndarray float.
Variable chunk3 : ndarray Z.
Variables n0 n1 n2 : nat.

Hypothesis chunk1_shape : has_shape (n0, n1, n2) chunk1.
Hypothesis chunk3_shape : has_shape (n0, n1, n2) chunk3.
Hypothesis value_ok :
  ∀ i j peak, i < n0 → j < n1 → peak < n2 → ∃ v, value i j peak = Ok v.

(** One iteration of [for ii in ints]. *)
Lemma pick_segment_ok (out : ndarray float) (i j : nat)
    (reference : list float) (ids : list Z) (ii : Z) :
  has_shape (n0, n1, n2) out →
  trace_at chunk1 i j = Ok reference → trace_at chunk3 i j = Ok ids →
  ii ∈ ids →
  ∃ out' peak v,
    pick_segment value chunk1 chunk3 i j out ii = Ok out' ∧
    has_shape (n0, n1, n2) out' ∧
    is_peak reference (where_eq ids ii) peak ∧ value i j peak = Ok v ∧
    (∀ i' j', (i', j') ≠ (i, j) → trace_at out' i' j' = trace_at out i' j') ∧
    (∀ k, getitem3 out' i j k =
          if decide (k ∈ where_eq ids ii) then Ok v else getitem3 out i j k).
Proof.
  intros Hout Href Hids Hii.
  destruct (has_shape_trace_at_inv _ _ _ _ _ _ _ chunk1_shape Href) as (Hi & Hj & Hlr).
  destruct (has_shape_trace_at_inv _ _ _ _ _ _ _ chunk3_shape Hids) as (_ & _ & Hli).
  assert (Forall (λ k, k < n2) (where_eq ids ii)) as Hrange.
  { apply Forall_forall. intros k Hk%where_eq_lt. lia. }
  destruct (pick_peak reference (where_eq ids ii)) as (sel & a & peak & Hsel & Ha & Hpk & Hpeak).
  { apply list_elem_of_lookup in Hii as [k Hk].
    apply elem_of_where_eq in Hk. intros E. rewrite E in Hk. by apply elem_of_nil in Hk. }
  { apply where_eq_sorted. }
  { by rewrite Hlr. }
  assert (peak < n2) as Hpn.
  { destruct Hpeak as [Hin _]. by eapply Forall_forall in Hrange. }
  destruct (value_ok i j peak Hi Hj Hpn) as [v Hv].
  destruct (setitem_fancy3_ok n0 n1 n2 out i j (where_eq ids ii) v)
    as (out' & Hset & Hshape' & Hothers & Hget); [done..|].
  exists out', peak, v. split; [|done].
  unfold pick_segment. rewrite Hids. cbn [bind].
  unfold getitem_fancy3. rewrite Href. cbn [bind].
  rewrite Hsel. cbn [bind]. rewrite Ha. cbn [bind].
  rewrite Hpk. cbn [bind]. rewrite Hv. cbn [bind]. done.
Qed.

(** The loop [for ii in ints] over labels of the trace, each met once. *)
Lemma pick_segments_ok (ints : list Z) (out : ndarray float) (i j : nat)
    (reference : list float) (ids : list Z) :
  has_shape (n0, n1, n2) out →
  trace_at chunk1 i j = Ok reference → trace_at chunk3 i j = Ok ids →
  NoDup ints → (∀ ii, ii ∈ ints → ii ∈ ids) →
  ∃ out',
    for_each (pick_segment value chunk1 chunk3 i j) ints out = Ok out' ∧
    has_shape (n0, n1, n2) out' ∧
    (∀ i' j', (i', j') ≠ (i, j) → trace_at out' i' j' = trace_at out i' j') ∧
    (∀ k ii, ids !! k = Some ii →
       (ii ∈ ints →
          ∃ peak v, is_peak reference (where_eq ids ii) peak ∧
                    value i j peak = Ok v ∧ getitem3 out' i j k = Ok v) ∧
       (ii ∉ ints → getitem3 out' i j k = getitem3 out i j k)).
Proof.
  intros Hout Href Hids Hnd Hsub. revert out Hout.
  induction ints as [|ii ints IH]; intros out Hout.
  - exists out. split; [done|]. split; [done|]. split; [done|].
    intros k ii Hk. split; [by intros ?%elem_of_nil|done].
  - apply NoDup_cons in Hnd as [Hnin Hnd].
    destruct (pick_segment_ok out i j reference ids ii)
      as (out1 & peak & v & Hstep & Hshape1 & Hpeak & Hv & Hoth1 & Hget1);
      [done|done|done|apply Hsub; by left|].
    assert (∀ jj, jj ∈ ints → jj ∈ ids) as Hsub' by (intros; apply Hsub; by right).
    destruct (IH Hnd Hsub' out1 Hshape1) as (out' & Hloop & Hshape' & Hoth' & Hget').
    exists out'. split; [cbn [for_each]; rewrite Hstep; done|].
    split; [done|]. split.
    { intros i' j' Hne. rewrite Hoth' by done. by apply Hoth1. }
    intros k jj Hk. destruct (Hget' k jj Hk) as [Hin Hout'].
    split.
    + intros [->|Hjj]%elem_of_cons; [|by apply Hin].
      exists peak, v. split; [done|]. split; [done|].
      rewrite Hout' by done. rewrite Hget1.
      rewrite decide_True; [done|]. by apply elem_of_where_eq.
    + intros Hnjj. rewrite Hout' by (intros ?; apply Hnjj; by right).
      rewrite Hget1. rewrite decide_False; [done|].
      intros Hin'%elem_of_where_eq. apply Hnjj, elem_of_cons. left. congruence.
Qed.

(** One iteration of [for i,j in ndindex(...)]. *)
Lemma pick_trace_ok (out : ndarray float) (i j : nat) :
  has_shape (n0, n1, n2) out → i < n0 → j < n1 →
  ∃ out',
    pick_trace value chunk1 chunk3 out (i, j) = Ok out' ∧
    has_shape (n0, n1, n2) out' ∧
    (∀ i' j', (i', j') ≠ (i, j) → trace_at out' i' j' = trace_at out i' j') ∧
    trace_done value chunk1 chunk3 out' i j.
Proof.
  intros Hout Hi Hj.
  destruct (has_shape_trace_at _ _ _ _ _ _ chunk1_shape Hi Hj) as (reference & Href & _).
  destruct (has_shape_trace_at _ _ _ _ _ _ chunk3_shape Hi Hj) as (ids & Hids & _).
  destruct (pick_segments_ok (unique ids) out i j reference ids)
    as (out' & Hloop & Hshape' & Hoth & Hget);
    [done|done|done|apply unique_NoDup|intros ii; apply elem_of_unique|].
  exists out'. split; [unfold pick_trace; rewrite Hids; done|].
  split; [done|]. split; [done|].
  intros reference' ids' k ii Href' Hids' Hk.
  assert (reference' = reference) as -> by congruence.
  assert (ids' = ids) as -> by congruence.
  apply (Hget k ii Hk). apply elem_of_unique. by eapply list_elem_of_lookup_2.
Qed.

Lemma trace_done_ext (out out' : ndarray float) (i j : nat) :
  trace_at out' i j = trace_at out i j →
  trace_done value chunk1 chunk3 out i j →
  trace_done value chunk1 chunk3 out' i j.
Proof.
  intros E H reference ids k ii Href Hids Hk.
  destruct (H reference ids k ii Href Hids Hk) as (peak & v & ? & ? & Hget).
  exists peak, v. split; [done|]. split; [done|].
  unfold getitem3 in *. by rewrite E.
Qed.

(** The loop over the traces, each met once. *)
Lemma pick_traces_ok (pairs : list (nat * nat)) (out : ndarray float) :
  has_shape (n0, n1, n2) out →
  NoDup pairs → (∀ i j, (i, j) ∈ pairs → i < n0 ∧ j < n1) →
  ∃ out',
    for_each (pick_trace value chunk1 chunk3) pairs out = Ok out' ∧
    has_shape (n0, n1, n2) out' ∧
    (∀ i j, (i, j) ∈ pairs → trace_done value chunk1 chunk3 out' i j).
Proof.
  intros Hout Hnd Hrange. revert out Hout.
  induction pairs as [|[i j] pairs IH]; intros out Hout.
  - exists out. split; [done|]. split; [done|]. by intros i j ?%elem_of_nil.
  - apply NoDup_cons in Hnd as [Hnin Hnd].
    destruct (Hrange i j) as [Hi Hj]; [by left|].
    destruct (pick_trace_ok out i j Hout Hi Hj) as (out1 & Hstep & Hshape1 & _ & Hdone1).
    assert (∀ a b, (a, b) ∈ pairs → a < n0 ∧ b < n1) as Hrange'
      by (intros; apply Hrange; by right).
    destruct (IH Hnd Hrange' out1 Hshape1) as (out' & Hloop & Hshape' & Hdone').
    assert (∀ i' j', (i', j') ∉ pairs → trace_at out' i' j' = trace_at out1 i' j')
      as Hkeep.
    { clear -Hloop Hshape1 Hrange' chunk1_shape chunk3_shape value_ok.
      revert out1 Hloop Hshape1. induction pairs as [|[a b] pairs IHp];
        intros out1 Hloop Hshape1 i' j' Hn.
      - cbn in Hloop. by simplify_eq.
      - destruct (Hrange' a b) as [Ha Hb]; [by left|].
        destruct (pick_trace_ok out1 a b Hshape1 Ha Hb) as (out2 & Hstep & Hs2 & Hoth & _).
        cbn [for_each] in Hloop. rewrite Hstep in Hloop. cbn [bind] in Hloop.
        assert (∀ x y, (x, y) ∈ pairs → x < n0 ∧ y < n1) as Hr2
          by (intros; apply Hrange'; by right).
        rewrite (IHp Hr2 out2 Hloop Hs2 i' j') by (intros ?; apply Hn; by right).
        apply Hoth. intros E. apply Hn, elem_of_cons. by left. }
    exists out'. split; [cbn [for_each]; rewrite Hstep; done|].
    split; [done|].
    intros i' j' [E|Hin]%elem_of_cons; [|by apply Hdone'].
    simplify_eq. eapply trace_done_ext; [|exact Hdone1]. by apply Hkeep.
Qed.

(** The whole closure: it returns an output of the reference's shape on
    which every sample holds the value picked at the peak of its segment. *)
Lemma peak_pick_ok :
  ∃ out,
    peak_pick value chunk1 chunk3 = Ok out ∧
    has_shape (n0, n1, n2) out ∧
    (∀ i j, i < n0 → j < n1 → trace_done value chunk1 chunk3 out i j).
Proof.
  pose proof (has_shape_zeros _ _ _ _ chunk1_shape) as Hz.
  unfold peak_pick. cbv zeta. generalize dependent (zeros (shape chunk1)).
  intros out0 Hz.
  assert (∀ i j, (i, j) ∈ ndindex (shape out0).1.1 (shape out0).1.2 ↔
                 i < n0 ∧ j < n1) as Hdims.
  { intros i j. rewrite elem_of_ndindex. destruct Hz as [Hl Hrows].
    unfold shape. cbn [fst snd].
    destruct out0 as [|row rest]; cbn [hd length] in *; [lia|].
    apply Forall_cons in Hrows as [[Hrl _] _]. lia. }
  destruct (pick_traces_ok (ndindex (shape out0).1.1 (shape out0).1.2) out0 Hz)
    as (out & Hrun & Hshape & Hdone).
  { apply NoDup_ndindex. }
  { intros i j. apply Hdims. }
  exists out. split; [done|]. split; [done|].
  intros i j Hi Hj. apply Hdone. by apply Hdims.
Qed.

End Loops.

End BlockFacts.

Export BlockFacts.

(** ** Segments of a trace *)

Module SegmentFacts.








End SegmentFacts.

Export SegmentFacts.

(** ** The closures on blocks of matching extents *)

Module ClosureFacts.

Lemma getitem3_trace {A : Type} (c : ndarray A) (i j k : nat) (t : list A) (v : A) :
  trace_at c i j = Ok t → (getitem3 c i j k = Ok v ↔ t !! k = Some v).
Proof.
  intros Ht. unfold getitem3, getitem. rewrite Ht. cbn [bind].
  destruct (t !! k); split; congruence.
Qed.

Section Companion.

Variables chunk1 chunk2 : ndarray float.
Variable chunk3 : ndarray Z.
Variables n0 n1 n2 m0 m1 m2 : nat.

Hypothesis chunk1_shape : has_shape (n0, n1, n2) chunk1.
Hypothesis chunk3_shape : has_shape (n0, n1, n2) chunk3.
Hypothesis chunk2_shape : has_shape (m0, m1, m2) chunk2.
Hypothesis chunk2_covers : shape_le (n0, n1, n2) (m0, m1, m2).

Lemma companion_lookup (i j peak : nat) :
  i < n0 → j < n1 → peak < n2 → ∃ c, getitem3 chunk2 i j peak = Ok c.
Proof.
  intros Hi Hj Hp. destruct chunk2_covers as (H0 & H1 & H2). cbn in H0, H1, H2.
  destruct (has_shape_trace_at m0 m1 m2 chunk2 i j chunk2_shape) as (t & Ht & Hlen);
    [lia..|].
  destruct (lookup_lt_is_Some_2 t peak) as [c Hc]; [lia|].
  exists c. by apply (getitem3_trace _ _ _ _ t).
Qed.

Lemma reference_lookup (i j peak : nat) :
  i < n0 → j < n1 → peak < n2 → ∃ r, getitem3 chunk1 i j peak = Ok r.
Proof.
  intros Hi Hj Hp.
  destruct (has_shape_trace_at n0 n1 n2 chunk1 i j chunk1_shape) as (t & Ht & Hlen);
    [lia..|].
  destruct (lookup_lt_is_Some_2 t peak) as [c Hc]; [lia|].
  exists c. by apply (getitem3_trace _ _ _ _ t).
Qed.

(** The take-companion loops: every sample of the output holds the
    companion at the peak of the sample's segment. *)
Lemma take_companion_ok :
  ∃ out,
    peak_pick (take_companion chunk2) chunk1 chunk3 = Ok out ∧
    has_shape (n0, n1, n2) out ∧
    ∀ i j k reference companion ids ii,
      trace_at chunk1 i j = Ok reference →
      trace_at chunk2 i j = Ok companion →
      trace_at chunk3 i j = Ok ids →
      ids !! k = Some ii →
      ∃ peak v, is_peak reference (where_eq ids ii) peak ∧
                companion !! peak = Some v ∧ getitem3 out i j k = Ok v.
Proof.
  destruct (peak_pick_ok (take_companion chunk2) chunk1 chunk3 n0 n1 n2)
    as (out & Hrun & Hshape & Hdone); [done|done|apply companion_lookup|].
  exists out. split; [done|]. split; [done|].
  intros i j k reference companion ids ii Href Hcomp Hids Hk.
  destruct (has_shape_trace_at_inv _ _ _ _ _ _ _ chunk1_shape Href) as (Hi & Hj & _).
  destruct (Hdone i j Hi Hj reference ids k ii Href Hids Hk) as (peak & v & Hpeak & Hv & Hget).
  exists peak, v. split; [done|]. split; [|done].
  by apply (getitem3_trace chunk2 i j peak companion).
Qed.

(** The signed-peak loops: every sample of the output holds the reference
    at the peak of its segment times the sign of the companion there. *)
Lemma signed_peak_ok :
  ∃ out,
    peak_pick (signed_peak chunk1 chunk2) chunk1 chunk3 = Ok out ∧
    has_shape (n0, n1, n2) out ∧
    ∀ i j k reference companion ids ii,
      trace_at chunk1 i j = Ok reference →
      trace_at chunk2 i j = Ok companion →
      trace_at chunk3 i j = Ok ids →
      ids !! k = Some ii →
      ∃ peak r c, is_peak reference (where_eq ids ii) peak ∧
                  reference !! peak = Some r ∧ companion !! peak = Some c ∧
                  getitem3 out i j k = Ok (fmul r (sign c)).
Proof.
  destruct (peak_pick_ok (signed_peak chunk1 chunk2) chunk1 chunk3 n0 n1 n2)
    as (out & Hrun & Hshape & Hdone); [done|done| |].
  { intros i j peak Hi Hj Hp. unfold signed_peak.
    destruct (reference_lookup i j peak) as [r ->]; [done..|].
    destruct (companion_lookup i j peak) as [c ->]; [done..|].
    cbn [bind]. by eexists. }
  exists out. split; [done|]. split; [done|].
  intros i j k reference companion ids ii Href Hcomp Hids Hk.
  destruct (has_shape_trace_at_inv _ _ _ _ _ _ _ chunk1_shape Href) as (Hi & Hj & _).
  destruct (Hdone i j Hi Hj reference ids k ii Href Hids Hk) as (peak & v & Hpeak & Hv & Hget).
  unfold signed_peak in Hv.
  destruct (getitem3 chunk1 i j peak) as [r|] eqn:Hr; cbn [bind] in Hv; [|done].
  destruct (getitem3 chunk2 i j peak) as [c|] eqn:Hc; cbn [bind] in Hv; [|done].
  simplify_eq. exists peak, r, c. split; [done|].
  split; [by apply (getitem3_trace chunk1 i j peak reference)|].
  split; [by apply (getitem3_trace chunk2 i j peak companion)|done].
Qed.

End Companion.

Lemma shape_le_refl (s : shape3) : shape_le s s.
Proof. unfold shape_le. lia. Qed.

(** [xp.sign] by cases. *)
Lemma sign_cases (c : float) :
  (flt zero c = true ∧ feq c zero = false ∧ sign c = one) ∨
  (flt c zero = true ∧ feq c zero = false ∧ sign c = minus_one) ∨
  (feq c zero = true ∧ sign c = zero) ∨
  (isnan c = true ∧ sign c = nan).
Proof.
  unfold sign.
  destruct c as [s|[]| |[] m e]; cbn; auto 10.
Qed.

(** A positive peak value times the sign of a companion: the magnitude is
    the peak value and the sign is the companion's, unless the companion is
    zero, where the product of a finite peak value is zero. *)
Lemma signed_value (r c : float) :
  valid r = true → flt zero r = true → isnan c = false →
  (feq c zero = false →
     fabs (fmul r (sign c)) = r ∧ sign (fmul r (sign c)) = sign c) ∧
  (feq c zero = true → isinf r = false →
     fmul r (sign c) = zero ∧ sign (fmul r (sign c)) = sign c).
Proof.
  intros Hv Hr Hc.
  destruct (sign_cases c) as [(_ & Hz & ->)|[(_ & Hz & ->)|[(Hz & ->)|(Hn & _)]]].
  - rewrite Hz, fmul_one_r by done. split; [intros _|done].
    revert Hr. clear. by float_cases r.
  - rewrite Hz, fmul_minus_one_r by done. split; [intros _|done].
    revert Hr. clear. by float_cases r.
  - rewrite Hz. split; [done|intros _ Hi].
    revert Hr Hi. clear. by float_cases r.
  - congruence.
Qed.

End ClosureFacts.

Export ClosureFacts.

(** ** What the loops raise, and the peak of a segment *)

Module ErrorFacts.

Ltac bind_case H :=
  match type of H with
  | bind ?m _ = _ =>
      let E := fresh "E" in destruct m eqn:E; cbn [bind] in H
  end.

Lemma getitem_raise {A : Type} (a : list A) (k : nat) (e : pyerror) :
  getitem a k = Raise e → e = IndexError.
Proof. unfold getitem. destruct (a !! k); congruence. Qed.

Lemma trace_at_raise {A : Type} (c : ndarray A) (i j : nat) (e : pyerror) :
  trace_at c i j = Raise e → e = IndexError.
Proof.
  unfold trace_at. intros H. bind_case H.
  - by eapply getitem_raise.
  - simplify_eq. by eapply getitem_raise.
Qed.

Lemma getitem3_raise {A : Type} (c : ndarray A) (i j k : nat) (e : pyerror) :
  getitem3 c i j k = Raise e → e = IndexError.
Proof.
  unfold getitem3. intros H. bind_case H.
  - by eapply getitem_raise.
  - simplify_eq. by eapply trace_at_raise.
Qed.

Lemma getitem_fancy_raise {A : Type} (a : list A) (idx : list nat) (e : pyerror) :
  getitem_fancy a idx = Raise e → e = IndexError.
Proof.
  induction idx as [|k idx IH]; cbn [getitem_fancy]; [done|].
  intros H. bind_case H.
  - bind_case H; [done|]. simplify_eq. by apply IH.
  - simplify_eq. by eapply getitem_raise.
Qed.

Lemma getitem_fancy_length {A : Type} (a : list A) (idx : list nat) (sel : list A) :
  getitem_fancy a idx = Ok sel → length sel = length idx.
Proof.
  revert sel. induction idx as [|k idx IH]; intros sel; cbn [getitem_fancy].
  - by intros [= <-].
  - intros H. bind_case H; [|done]. bind_case H; [|done]. simplify_eq.
    cbn [length]. f_equal. by apply IH.
Qed.

Lemma put_raise {A : Type} (a : list A) (idx : list nat) (v : A) (e : pyerror) :
  put a idx v = Raise e → e = IndexError.
Proof.
  revert a. induction idx as [|k idx IH]; intros a; cbn [put]; [done|].
  case_decide; [apply IH|congruence].
Qed.

Lemma setitem_fancy3_raise {A : Type} (c : ndarray A) (i j : nat)
    (idx : list nat) (v : A) (e : pyerror) :
  setitem_fancy3 c i j idx v = Raise e → e = IndexError.
Proof.
  unfold setitem_fancy3. intros H. bind_case H.
  - bind_case H.
    + bind_case H; [done|]. simplify_eq. by eapply put_raise.
    + simplify_eq. by eapply getitem_raise.
  - simplify_eq. by eapply getitem_raise.
Qed.

Lemma for_each_raise {S X : Type} (P : pyerror → Prop)
    (body : S → X → result S) (xs : list X) (s : S) (e : pyerror) :
  (∀ s x e, x ∈ xs → body s x = Raise e → P e) →
  for_each body xs s = Raise e → P e.
Proof.
  revert s. induction xs as [|x xs IH]; intros s Hbody; cbn [for_each]; [done|].
  intros H. bind_case H.
  - eapply IH; [|done]. intros s' x' e' Hx'. apply Hbody. by right.
  - simplify_eq. eapply Hbody; [|done]. by left.
Qed.

(** Every step of a loop that returns has returned. *)
Lemma for_each_Ok_inv {S X : Type} (body : S → X → result S) (xs : list X)
    (s s' : S) (x : X) :
  for_each body xs s = Ok s' → x ∈ xs → ∃ s1 s2, body s1 x = Ok s2.
Proof.
  revert s. induction xs as [|y xs IH]; intros s H Hx.
  - by apply elem_of_nil in Hx.
  - cbn [for_each] in H. bind_case H; [|done].
    apply elem_of_cons in Hx as [->|Hx]; [by eexists _, _|by eapply IH].
Qed.

Section Value.

Variable value : nat → nat → nat → result float.
Variable chunk1 : ndarray float.
Variable chunk3 : ndarray Z.

Hypothesis value_raise : ∀ i j p e, value i j p = Raise e → e = IndexError.

(** The selection handed to [argmax] is never empty: the label of the
    iteration comes from the trace itself. *)
Lemma pick_segment_raise (i j : nat) (out : ndarray float) (ids : list Z)
    (ii : Z) (e : pyerror) :
  trace_at chunk3 i j = Ok ids → ii ∈ ids →
  pick_segment value chunk1 chunk3 i j out ii = Raise e → e = IndexError.
Proof.
  intros Hids Hii. unfold pick_segment. rewrite Hids. cbn [bind]. intros H.
  bind_case H.
  2:{ simplify_eq. unfold getitem_fancy3 in E. bind_case E.
      - by eapply getitem_fancy_raise.
      - simplify_eq. by eapply trace_at_raise. }
  bind_case H.
  2:{ exfalso. unfold getitem_fancy3 in E. bind_case E; [|done].
      apply getitem_fancy_length in E.
      destruct a as [|x a]; [|done]. cbn in E.
      apply list_elem_of_lookup in Hii as [k Hk]. apply elem_of_where_eq in Hk.
      destruct (where_eq ids ii); [by apply elem_of_nil in Hk|done]. }
  bind_case H; [|simplify_eq; by eapply getitem_raise].
  bind_case H; [|simplify_eq; by eapply value_raise].
  by eapply setitem_fancy3_raise.
Qed.

Lemma pick_trace_raise (out : ndarray float) (ij : nat * nat) (e : pyerror) :
  pick_trace value chunk1 chunk3 out ij = Raise e → e = IndexError.
Proof.
  destruct ij as [i j]. unfold pick_trace. intros H. bind_case H.
  - revert H. apply (for_each_raise (λ e, e = IndexError)).
    intros out' ii e' Hii. eapply pick_segment_raise; [done|].
    by apply elem_of_unique.
  - simplify_eq. by eapply trace_at_raise.
Qed.

Lemma peak_pick_raise (e : pyerror) :
  peak_pick value chunk1 chunk3 = Raise e → e = IndexError.
Proof.
  unfold peak_pick. apply (for_each_raise (λ e, e = IndexError)).
  intros out ij e' _. apply pick_trace_raise.
Qed.

End Value.

Lemma take_companion_raise (chunk2 : ndarray float) (i j p : nat) (e : pyerror) :
  take_companion chunk2 i j p = Raise e → e = IndexError.
Proof. apply getitem3_raise. Qed.

Lemma signed_peak_raise (chunk1 chunk2 : ndarray float) (i j p : nat)
    (e : pyerror) :
  signed_peak chunk1 chunk2 i j p = Raise e → e = IndexError.
Proof.
  unfold signed_peak. intros H. bind_case H.
  - bind_case H; [done|]. simplify_eq. by eapply getitem3_raise.
  - simplify_eq. by eapply getitem3_raise.
Qed.

Lemma map3_raise (operation : ndarray float → ndarray float → ndarray Z →
                              result (ndarray float))
    (xs ys : list (ndarray float)) (zs : list (ndarray Z)) (e : pyerror) :
  (∀ x y z e, operation x y z = Raise e → e = IndexError) →
  map3 operation xs ys zs = Raise e → e = IndexError.
Proof.
  intros Hop. revert ys zs.
  induction xs as [|x xs IH]; intros [|y ys] [|z zs]; cbn [map3]; try done.
  intros H. bind_case H.
  - bind_case H; [done|]. simplify_eq. by eapply IH.
  - simplify_eq. by eapply Hop.
Qed.

End ErrorFacts.

Export ErrorFacts.

Module PeakFacts.

(** A segment has one peak. *)
Lemma is_peak_unique (reference : list float) (seg : list nat) (p q : nat) :
  is_peak reference seg p → is_peak reference seg q → p = q.
Proof.
  intros (Hp & rp & Hrp & Hpmax) (Hq & rq & Hrq & Hqmax).
  destruct (Hpmax q rq Hq Hrq) as [Hqp Hqlt].
  destruct (Hqmax p rp Hp Hrp) as [Hpq Hplt].
  destruct (lt_eq_lt_dec p q) as [[Hlt| ->]|Hlt]; [|done|].
  - specialize (Hplt Hlt). unfold max_lt in Hplt. rewrite Hqp in Hplt. done.
  - specialize (Hqlt Hlt). unfold max_lt in Hqlt. rewrite Hpq in Hqlt. done.
Qed.


Lemma filter_Forall_id {A : Type} (P : A → Prop) `{!∀ x, Decision (P x)}
    (l : list A) :
  Forall P l → filter P l = l.
Proof.
  induction 1 as [|x l Hx _ IH]; [done|].
  rewrite filter_cons_True by done. by rewrite IH.
Qed.

(** The segment of a label that fills the trace is the whole trace. *)
Lemma where_eq_constant (ids : list Z) (c : Z) :
  Forall (λ ii, ii = c) ids → where_eq ids c = seq 0 (length ids).
Proof.
  intros Hc. unfold where_eq. apply filter_Forall_id, Forall_forall.
  intros k Hk%elem_of_seq.
  destruct (lookup_lt_is_Some_2 ids k) as [ii Hii]; [lia|].
  rewrite Hii. f_equal. by eapply (Forall_lookup_1 _ _ _ _ Hc).
Qed.

Lemma ndindex_zeros {A : Type} (n0 n1 n2 : nat) (c : ndarray A) (i j : nat) :
  has_shape (n0, n1, n2) c →
  (i, j) ∈ ndindex (shape (zeros (shape c))).1.1 (shape (zeros (shape c))).1.2 ↔
  i < n0 ∧ j < n1.
Proof.
  intros Hz%has_shape_zeros. generalize dependent (zeros (shape c)).
  intros out0 [Hl Hrows]. rewrite elem_of_ndindex. unfold shape. cbn [fst snd].
  destruct out0 as [|row rest]; cbn [hd length] in *; [lia|].
  apply Forall_cons in Hrows as [[Hrl _] _]. lia.
Qed.

Lemma trace_at_length (n0 n1 n2 : nat) {A : Type} (c : ndarray A) (i j : nat)
    (t : list A) :
  has_shape (n0, n1, n2) c → trace_at c i j = Ok t → length t = n2.
Proof. intros Hs Ht. by destruct (has_shape_trace_at_inv _ _ _ _ _ _ _ Hs Ht) as (_ & _ & ?). Qed.

Section Picked.

Variable value : nat → nat → nat → result float.
Variables chunk1 : ndarray float.
Variable chunk3 : ndarray Z.
Variables n0 n1 n2 : nat.

Hypothesis chunk1_shape : has_shape (n0, n1, n2) chunk1.
Hypothesis chunk3_shape : has_shape (n0, n1, n2) chunk3.

(** What a finished trace holds on a segment is one value. *)
Lemma trace_done_constant (out : ndarray float) (i j k k' : nat) (ids : list Z)
    (ii : Z) :
  i < n0 → j < n1 → trace_done value chunk1 chunk3 out i j →
  trace_at chunk3 i j = Ok ids → ids !! k = Some ii → ids !! k' = Some ii →
  getitem3 out i j k = getitem3 out i j k'.
Proof.
  intros Hi Hj Hdone Hids Hk Hk'.
  destruct (has_shape_trace_at _ _ _ _ _ _ chunk1_shape Hi Hj) as (reference & Href & _).
  destruct (Hdone reference ids k ii Href Hids Hk) as (p & v & Hp & Hv & ->).
  destruct (Hdone reference ids k' ii Href Hids Hk') as (q & w & Hq & Hw & ->).
  assert (p = q) as -> by (by eapply is_peak_unique). congruence.
Qed.

(** A loop that has returned has read the value at the peak of every
    segment of every trace. *)
Lemma peak_pick_Ok_value (out : ndarray float) (i j peak : nat)
    (reference : list float) (ids : list Z) (ii : Z) :
  peak_pick value chunk1 chunk3 = Ok out →
  trace_at chunk1 i j = Ok reference → trace_at chunk3 i j = Ok ids →
  ii ∈ ids → is_peak reference (where_eq ids ii) peak →
  ∃ v, value i j peak = Ok v.
Proof.
  intros Hrun Href Hids Hii Hpeak.
  destruct (has_shape_trace_at_inv _ _ _ _ _ _ _ chunk1_shape Href) as (Hi & Hj & Hlr).
  pose proof (trace_at_length _ _ _ _ _ _ _ chunk3_shape Hids) as Hli.
  unfold peak_pick in Hrun. cbv zeta in Hrun.
  eapply (for_each_Ok_inv _ _ _ _ (i, j)) in Hrun as (out1 & out2 & Hrun);
    [|by eapply ndindex_zeros].
  unfold pick_trace in Hrun. rewrite Hids in Hrun. cbn [bind] in Hrun.
  eapply (for_each_Ok_inv _ _ _ _ ii) in Hrun as (out3 & out4 & Hrun);
    [|by apply elem_of_unique].
  unfold pick_segment, getitem_fancy3 in Hrun.
  rewrite Hids, Href in Hrun. cbn [bind] in Hrun.
  destruct (pick_peak reference (where_eq ids ii))
    as (sel & a & q & Hsel & Ha & Hq & Hqpeak).
  { apply list_elem_of_lookup in Hii as [k Hk].
    apply elem_of_where_eq in Hk. intros E. rewrite E in Hk.
    by apply elem_of_nil in Hk. }
  { apply where_eq_sorted. }
  { apply Forall_forall. intros k Hk%where_eq_lt. lia. }
  rewrite Hsel in Hrun. cbn [bind] in Hrun.
  rewrite Ha in Hrun. cbn [bind] in Hrun.
  rewrite Hq in Hrun. cbn [bind] in Hrun.
  assert (q = peak) as -> by (by eapply is_peak_unique).
  destruct (value i j peak) as [v|]; [by exists v|done].
Qed.

End Picked.

Lemma signed_peak_value_ok (chunk1 chunk2 : ndarray float) (n0 n1 n2 : nat)
    (i j peak : nat) :
  has_shape (n0, n1, n2) chunk1 → has_shape (n0, n1, n2) chunk2 →
  i < n0 → j < n1 → peak < n2 → ∃ v, signed_peak chunk1 chunk2 i j peak = Ok v.
Proof.
  intros H1 H2 Hi Hj Hp. unfold signed_peak.
  destruct (reference_lookup chunk1 n0 n1 n2 H1 i j peak) as [r ->]; [done..|].
  destruct (companion_lookup chunk2 n0 n1 n2 n0 n1 n2 H2 (shape_le_refl _) i j peak)
    as [c ->]; [done..|].
  cbn [bind]. by eexists.
Qed.

(** What two finished runs hold on a trace they share. *)
Lemma trace_done_local (value value' : nat → nat → nat → result float)
    (chunk1 chunk1' : ndarray float) (chunk3 chunk3' : ndarray Z)
    (out out' : ndarray float) (n0 n1 n2 n0' n1' n2' i j : nat) :
  has_shape (n0, n1, n2) chunk1 → has_shape (n0, n1, n2) chunk3 →
  has_shape (n0, n1, n2) out →
  has_shape (n0', n1', n2') chunk1' → has_shape (n0', n1', n2') chunk3' →
  has_shape (n0', n1', n2') out' →
  i < n0 → j < n1 →
  trace_at chunk1' i j = trace_at chunk1 i j →
  trace_at chunk3' i j = trace_at chunk3 i j →
  (∀ p, value' i j p = value i j p) →
  trace_done value chunk1 chunk3 out i j →
  trace_done value' chunk1' chunk3' out' i j →
  trace_at out' i j = trace_at out i j.
Proof.
  intros H1 H3 Ho H1' H3' Ho' Hi Hj E1 E3 Ev Hdone Hdone'.
  destruct (has_shape_trace_at _ _ _ _ _ _ H1 Hi Hj) as (reference & Href & Hlr).
  destruct (has_shape_trace_at _ _ _ _ _ _ H3 Hi Hj) as (ids & Hids & Hli).
  destruct (has_shape_trace_at _ _ _ _ _ _ Ho Hi Hj) as (t & Ht & Hlt).
  rewrite Href in E1. rewrite Hids in E3.
  destruct (has_shape_trace_at_inv _ _ _ _ _ _ _ H1' E1) as (Hi' & Hj' & Hlr').
  destruct (has_shape_trace_at _ _ _ _ _ _ Ho' Hi' Hj') as (t' & Ht' & Hlt').
  rewrite Ht, Ht'. f_equal. apply list_eq. intros k.
  destruct (decide (k < n2)) as [Hk|Hk].
  - destruct (lookup_lt_is_Some_2 ids k) as [ii Hii]; [lia|].
    destruct (Hdone reference ids k ii Href Hids Hii) as (p & v & Hp & Hv & Hget).
    destruct (Hdone' reference ids k ii E1 E3 Hii) as (q & w & Hq & Hw & Hget').
    assert (q = p) as -> by (by eapply is_peak_unique).
    rewrite Ev, Hv in Hw. simplify_eq.
    apply (getitem3_trace _ _ _ _ t) in Hget; [|done].
    apply (getitem3_trace _ _ _ _ t') in Hget'; [|done]. congruence.
  - rewrite !lookup_ge_None_2 by lia. done.
Qed.

(** A finished trace with one label holds one value, picked at the first
    maximum of the whole reference. *)
Lemma trace_done_single (value : nat → nat → nat → result float)
    (chunk1 : ndarray float) (chunk3 : ndarray Z) (out : ndarray float)
    (n0 n1 n2 i j : nat) (reference : list float) (ids : list Z) (c : Z) :
  has_shape (n0, n1, n2) chunk1 → has_shape (n0, n1, n2) chunk3 →
  has_shape (n0, n1, n2) out →
  trace_at chunk1 i j = Ok reference → trace_at chunk3 i j = Ok ids →
  ids ≠ [] → Forall (λ ii, ii = c) ids →
  trace_done value chunk1 chunk3 out i j →
  ∃ peak v, is_peak reference (seq 0 (length reference)) peak ∧
            value i j peak = Ok v ∧
            trace_at out i j = Ok (replicate (length reference) v).
Proof.
  intros H1 H3 Ho Href Hids Hne Hc Hdone.
  destruct (has_shape_trace_at_inv _ _ _ _ _ _ _ H1 Href) as (Hi & Hj & Hlr).
  pose proof (trace_at_length _ _ _ _ _ _ _ H3 Hids) as Hli.
  destruct (has_shape_trace_at _ _ _ _ _ _ Ho Hi Hj) as (t & Ht & Hlt).
  pose proof (where_eq_constant ids c Hc) as Hseg.
  rewrite Hli, <- Hlr in Hseg.
  assert (∀ k, k < n2 → ids !! k = Some c) as Hlook.
  { intros k Hk. destruct (lookup_lt_is_Some_2 ids k) as [ii Hii]; [lia|].
    rewrite Hii. f_equal. by eapply (Forall_lookup_1 _ _ _ _ Hc). }
  assert (0 < n2) as Hpos by (destruct ids; [done|cbn in Hli; lia]).
  destruct (Hdone reference ids 0 c Href Hids (Hlook 0 Hpos)) as (p & v & Hp & Hv & _).
  exists p, v. rewrite <- Hseg. split; [done|]. split; [done|].
  rewrite Ht. f_equal. apply list_eq. intros k.
  destruct (decide (k < n2)) as [Hk|Hk].
  - destruct (Hdone reference ids k c Href Hids (Hlook k Hk)) as (q & w & Hq & Hw & Hget).
    assert (q = p) as -> by (by eapply is_peak_unique).
    rewrite Hv in Hw. simplify_eq.
    apply (getitem3_trace _ _ _ _ t) in Hget; [|done].
    rewrite Hget, lookup_replicate_2 by lia. done.
  - rewrite lookup_ge_None_2 by lia. symmetry.
    apply lookup_replicate_None. lia.
Qed.

Lemma getitem3_ext {A : Type} (c c' : ndarray A) (i j k : nat) :
  trace_at c i j = trace_at c' i j → getitem3 c i j k = getitem3 c' i j k.
Proof. unfold getitem3. by intros ->. Qed.

End PeakFacts.

Export PeakFacts.

(** ** The methods on any input *)

Module VolumeFacts.

(** Rounding keeps the sign it is given: a quotient of a non-negative
    float by a positive one is not negative. *)
Lemma binary_round_aux_positive (m e : Z) (l : location) :
  let r := binary_round_aux prec emax false m e l in
  fabs r = r ∧ flt r zero = false.
Proof.
  cbv zeta. unfold binary_round_aux.
  destruct (shr_fexp prec emax m e l) as [mrs e'].
  destruct (shr_fexp prec emax _ e' loc_Exact) as [mrs' e''].
  destruct (shr_m mrs'); [done| |done].
  destruct (e'' <=? emax - prec)%Z; done.
Qed.

Lemma fdiv_fabs_two_pi (x : float) :
  let q := fdiv (fabs x) (fmul two pi) in
  fabs q = q ∧ flt q zero = false.
Proof.
  cbv zeta.
  replace (fmul two pi) with (S754_finite false 7074237752028440 (-50))
    by (vm_compute; reflexivity).
  destruct x as [s|s| |s m e]; try done.
  unfold fabs, SFabs, fdiv, SFdiv. cbn [xorb].
  destruct (SFdiv_core_binary prec emax (Z.pos m) e 7074237752028440 (-50))
    as [[mz ez] lz].
  apply binary_round_aux_positive.
Qed.

Lemma fabs_not_negative (x : float) :
  fabs (fabs x) = fabs x ∧ flt (fabs x) zero = false.
Proof. by destruct x as [s|s| |s m e]. Qed.

Lemma cmap_cmap {A B C : Type} (f : A → B) (g : B → C) (c : ndarray A) :
  cmap g (cmap f c) = cmap (g ∘ f) c.
Proof.
  unfold cmap. rewrite <- list_fmap_compose. apply list_fmap_ext.
  intros _ row _. cbn. rewrite <- list_fmap_compose. apply list_fmap_ext.
  intros _ t _. cbn. by rewrite <- list_fmap_compose.
Qed.

Lemma cmap_ext {A B : Type} (f g : A → B) (c : ndarray A) :
  (∀ x, f x = g x) → cmap f c = cmap g c.
Proof.
  intros H. unfold cmap. apply list_fmap_ext. intros _ row _.
  apply list_fmap_ext. intros _ t _. apply list_fmap_ext. intros _ x _. apply H.
Qed.

Lemma shape_cmap {A B : Type} (f : A → B) (c : ndarray A) :
  shape (cmap f c) = shape c.
Proof.
  unfold shape, cmap. rewrite length_fmap.
  destruct c as [|row c]; [done|]. rewrite fmap_cons. cbn [hd].
  rewrite length_fmap. destruct row as [|t row]; [done|].
  rewrite fmap_cons. cbn [hd]. by rewrite length_fmap.
Qed.

Lemma fmap_fixed {A : Type} (f : A → A) (t : list A) :
  Forall (λ x, f x = x) t → f <$> t = t.
Proof. induction 1; [done|]. rewrite fmap_cons. congruence. Qed.

(** An elementwise function that fixes every element of a block fixes the
    block. *)
Lemma cmap_fixed {A : Type} (f : A → A) (c : ndarray A) :
  Forall (λ x, f x = x) (elements c) → cmap f c = c.
Proof.
  unfold elements, cmap. induction c as [|row c IH]; [done|].
  cbn [concat]. rewrite concat_app, Forall_app. intros [Hrow Hc].
  rewrite fmap_cons. f_equal; [|by apply IH].
  clear -Hrow. induction row as [|t row IH]; [done|].
  cbn [concat] in Hrow. apply Forall_app in Hrow as [Ht Hrow].
  rewrite fmap_cons. f_equal; [by apply fmap_fixed|by apply IH].
Qed.

Lemma elemwise_fixed {A : Type} (f : A → A) (d : dask_array A) :
  Forall (λ x, f x = x) (da_elements d) → elemwise f d = d.
Proof.
  destruct d as [cs bs]. unfold da_elements, elemwise, map_blocks.
  cbn [chunks blocks]. intros H. f_equal.
  induction bs as [|b bs IH]; [done|].
  rewrite bind_cons in H. apply Forall_app in H as [Hb Hbs].
  rewrite fmap_cons. f_equal; [by apply cmap_fixed|by apply IH].
Qed.

(** The halo of twelve samples changes the chunks of every array that has
    a block along the fast axis. *)
Lemma overlap_chunks_12_ne (cs : chunks3) :
  cs.2 ≠ [] → overlap_chunks (0, 0, 12)%Z cs ≠ cs.
Proof.
  destruct cs as [[c0 c1] [|c c2]]; [done|]. intros _.
  unfold overlap_chunks, map_chunks. rewrite fmap_cons. intros [= _ _ E _]. lia.
Qed.
(** Blocks that fit a depth still fit it after the halo of twelve samples
    has been added. *)
Lemma fits_overlap_12 (depth : triple) (cs : chunks3) :
  fits depth cs → fits depth (overlap_chunks (0, 0, 12)%Z cs).
Proof.
  destruct depth as [[h0 h1] h2], cs as [[c0 c1] c2].
  unfold fits, fits_axis, overlap_chunks, map_chunks. cbn [fst snd].
  intros ([Hp0 Hf0] & [Hp1 Hf1] & [Hp2 Hf2]).
  repeat split; try done; apply Forall_fmap.
  - eapply Forall_impl; [exact Hf0|]. intros c Hc. cbn in Hc |- *. lia.
  - eapply Forall_impl; [exact Hf1|]. intros c Hc. cbn in Hc |- *. lia.
  - eapply Forall_impl; [exact Hf2|]. intros c Hc. cbn in Hc |- *. lia.
Qed.

Lemma numblocks_overlap_chunks (depth : triple) (cs : chunks3) :
  numblocks (overlap_chunks depth cs) = numblocks cs.
Proof.
  destruct depth as [[h0 h1] h2], cs as [[c0 c1] c2].
  unfold numblocks, overlap_chunks, map_chunks. cbn [fst snd].
  by rewrite !length_fmap.
Qed.

(** Blocks of at least [h] samples add up to at least [h] per block. *)
Lemma extent_ge (h : Z) (cs : list Z) :
  Forall (λ c, (h ≤ c)%Z) cs → (h * Z.of_nat (length cs) ≤ extent cs)%Z.
Proof.
  unfold extent. induction 1 as [|c cs Hc _ IH]; cbn [foldr length]; lia.
Qed.

(** An array with its halo of twelve samples left on does not broadcast
    against the array without it. *)
Lemma halo_not_broadcastable (x y : dask_array float) :
  fits (0, 0, 12)%Z (chunks x) → (chunks x).2 ≠ [] →
  chunks y = overlap_chunks (0, 0, 12)%Z (chunks x) →
  chunks x ≠ chunks y ∧ chunks y ≠ chunks x ∧
  ¬ broadcastable (da_shape x) (da_shape y) ∧
  ¬ broadcastable (da_shape y) (da_shape x).
Proof.
  intros Hfits Hne Hy.
  pose proof (overlap_chunks_12_ne (chunks x) Hne) as Hc.
  split; [congruence|]. split; [congruence|].
  unfold da_shape. rewrite Hy.
  destruct (chunks x) as [[c0 c1] c2] eqn:Ecs.
  destruct Hfits as (_ & _ & [_ H2]). cbn [fst snd] in H2, Hne.
  cbn [overlap_chunks map_chunks]. rewrite !extent_fmap_add.
  pose proof (extent_ge 12 c2 H2) as Hext.
  assert (0 < Z.of_nat (length c2))%Z by (destruct c2; [done|cbn; lia]).
  unfold broadcastable, broadcast_axis. cbn [fst snd].
  split; intros (_ & _ & H3); lia.
Qed.

Section WithInstance.

Variable self : ComplexAttributes.

Lemma create_array_None (darray : volume) (preview : option preview) :
  create_array self darray None None reflect preview =
    Ok (as_dask self darray None preview, chunks (as_dask self darray None preview)).
Proof. by destruct darray. Qed.

(** What [overlap] raises is a ValueError, and only on blocks that do not
    fit the depth. *)
Lemma overlap_fits (x : dask_array float) (depth : triple) (b : boundary) :
  fits depth (chunks x) →
  overlap self x depth b =
    Ok (Darray (overlap_chunks depth (chunks x)) (self.(overlap_blocks) x depth b)).
Proof. intros H. unfold overlap. by rewrite decide_True. Qed.

Lemma overlap_raise (x : dask_array float) (depth : triple) (b : boundary)
    (e : pyerror) :
  overlap self x depth b = Raise e → e = ValueError ∧ ¬ fits depth (chunks x).
Proof.
  unfold overlap. case_decide; [done|].
  destruct (self.(overlap_rechunk) x depth b); [done|]. by intros [= <-].
Qed.

(** [create_array] with a kernel, as the methods call it. *)
Lemma create_array_kernel (darray : volume) (kernel : triple)
    (preview : option preview) :
  create_array self darray (Some kernel) None reflect preview =
    let* g := overlap self (as_dask self darray (Some kernel) preview)
                (half_window kernel) reflect in
    Ok (g, chunks g).
Proof. by destruct darray. Qed.


(** [envelope] and [instantaneous_phase] are [hilbert] followed by an
    elementwise function: the trim commutes with it. *)
Lemma envelope_hilbert (darray : volume) (kernel : triple)
    (preview : option preview) :
  envelope self darray kernel preview =
    let* h := hilbert self darray kernel preview in
    Ok (elemwise self.(cabs) h).
Proof.
  unfold envelope, hilbert.
  destruct (create_array self darray (Some kernel) None reflect preview)
    as [[d ci]|e]; cbn [bind]; [|done].
  by rewrite trim_dask_array_elemwise.
Qed.

Lemma instantaneous_phase_hilbert (darray : volume) (kernel : triple)
    (preview : option preview) :
  instantaneous_phase self darray kernel preview =
    let* h := hilbert self darray kernel preview in
    Ok (elemwise self.(rad2deg) (elemwise (angle self) h)).
Proof.
  unfold instantaneous_phase, hilbert.
  destruct (create_array self darray (Some kernel) None reflect preview)
    as [[d ci]|e]; cbn [bind]; [|done].
  by rewrite !trim_dask_array_elemwise.
Qed.

(** On blocks that fit the half window, [hilbert] returns, with the chunks
    of the array it starts from; it raises nothing but the ValueError of
    [overlap]. *)
Lemma hilbert_fits (darray : volume) (kernel : triple)
    (preview : option preview) :
  fits (half_window kernel) (chunks (as_dask self darray (Some kernel) preview)) →
  ∃ h, hilbert self darray kernel preview = Ok h ∧
       chunks h = chunks (as_dask self darray (Some kernel) preview).
Proof.
  intros Hfits. unfold hilbert.
  rewrite create_array_kernel, overlap_fits by done. cbn [bind].
  eexists. split; [done|].
  unfold trim_dask_array. cbn [chunks map_blocks]. apply trim_overlap_chunks.
Qed.

Lemma hilbert_raise (darray : volume) (kernel : triple)
    (preview : option preview) (e : pyerror) :
  hilbert self darray kernel preview = Raise e →
  e = ValueError ∧
  ¬ fits (half_window kernel) (chunks (as_dask self darray (Some kernel) preview)).
Proof.
  unfold hilbert. rewrite create_array_kernel.
  destruct (overlap self _ (half_window kernel) reflect) eqn:E; cbn [bind]; [done|].
  intros [= <-]. by apply overlap_raise in E.
Qed.

Lemma envelope_fits (d : dask_array float) (kernel : triple)
    (preview : option preview) :
  fits (half_window kernel) (chunks d) →
  ∃ env, envelope self (Dask d) kernel preview = Ok env ∧ chunks env = chunks d.
Proof.
  intros Hfits. rewrite envelope_hilbert.
  destruct (hilbert_fits (Dask d) kernel preview Hfits) as (h & -> & Hc).
  cbn [bind]. by eexists.
Qed.

Lemma envelope_raise (darray : volume) (kernel : triple)
    (preview : option preview) (e : pyerror) :
  envelope self darray kernel preview = Raise e →
  e = ValueError ∧
  ¬ fits (half_window kernel) (chunks (as_dask self darray (Some kernel) preview)).
Proof.
  rewrite envelope_hilbert.
  destruct (hilbert self darray kernel preview) eqn:E; cbn [bind]; [done|].
  intros [= <-]. by apply hilbert_raise in E.
Qed.

Lemma instantaneous_phase_fits (d : dask_array float) (kernel : triple)
    (preview : option preview) :
  fits (half_window kernel) (chunks d) →
  ∃ p, instantaneous_phase self (Dask d) kernel preview = Ok p ∧
       chunks p = chunks d.
Proof.
  intros Hfits. rewrite instantaneous_phase_hilbert.
  destruct (hilbert_fits (Dask d) kernel preview Hfits) as (h & -> & Hc).
  cbn [bind]. by eexists.
Qed.


(** The quotient of [relative_amplitude_change] never waits for the
    runtime: the derivative of the envelope has the chunks of the
    envelope. *)
Lemma relative_amplitude_change_envelope (darray : volume) (kernel : triple)
    (preview : option preview) :
  relative_amplitude_change self darray kernel preview =
    let* env := envelope self (Dask (as_dask self darray None preview)) kernel None in
    Ok (elemwise (clip minus_one one)
          (Darray (chunks env)
             (zip_with (czip fdiv) (blocks (first_derivative self env)) (blocks env)))).
Proof.
  unfold relative_amplitude_change. rewrite create_array_None. cbn [bind].
  destruct (envelope self _ kernel None) as [env|e]; cbn [bind]; [|done].
  unfold elemwise2. cbn [first_derivative chunks].
  by rewrite decide_True.
Qed.

Lemma relative_amplitude_change_fits (d : dask_array float) (kernel : triple)
    (preview : option preview) :
  fits (half_window kernel) (chunks d) →
  ∃ r, relative_amplitude_change self (Dask d) kernel preview = Ok r ∧
       chunks r = chunks d.
Proof.
  intros Hfits. rewrite relative_amplitude_change_envelope. cbn [as_dask].
  destruct (envelope_fits d kernel None Hfits) as (env & -> & Hc).
  cbn [bind]. by eexists.
Qed.

Lemma instantaneous_bandwidth_fits (d : dask_array float) (kernel : triple)
    (preview : option preview) :
  fits (half_window kernel) (chunks d) →
  ∃ r, instantaneous_bandwidth self (Dask d) kernel preview = Ok r ∧
       chunks r = chunks d.
Proof.
  intros Hfits. unfold instantaneous_bandwidth. rewrite create_array_None.
  cbn [bind as_dask].
  destruct (relative_amplitude_change_fits d kernel None Hfits) as (rac & -> & Hc).
  cbn [bind]. by eexists.
Qed.

(** [instantaneous_frequency] grows the blocks by the halo of (1, 1, 25)
    before it calls [instantaneous_phase], and nothing trims that halo. *)
Lemma instantaneous_frequency_fits (d : dask_array float) (sample_rate : number)
    (kernel : triple) (preview : option preview) (fs : float) :
  fits (0, 0, 12)%Z (chunks d) → fits (half_window kernel) (chunks d) →
  truediv_1000 sample_rate = Ok fs →
  ∃ r, instantaneous_frequency self (Dask d) sample_rate kernel preview = Ok r ∧
       chunks r = overlap_chunks (0, 0, 12)%Z (chunks d).
Proof.
  intros H12 Hk Hfs. unfold instantaneous_frequency.
  rewrite create_array_kernel. cbn [as_dask].
  change (half_window (1, 1, 25)%Z) with (0, 0, 12)%Z.
  rewrite overlap_fits by done. cbn [bind]. rewrite Hfs. cbn [bind].
  match goal with |- context [instantaneous_phase self (Dask ?g) kernel None] =>
    destruct (instantaneous_phase_fits g kernel None) as (p & -> & Hp) end.
  { cbn [chunks]. by apply fits_overlap_12. }
  cbn [bind]. eexists. split; [done|].
  cbn [elemwise map_blocks chunks first_derivative]. exact Hp.
Qed.


Lemma troughs_of_chunks (env : dask_array float) :
  chunks (troughs_of self env) = chunks env.
Proof. reflexivity. Qed.

(** A peak-pick over three arrays with the same numbers of blocks runs
    block by block and keeps the chunks of the first; what it raises is
    what a closure raised. *)
Lemma map_blocks3_positional
    (operation : ndarray float → ndarray float → ndarray Z →
                 result (ndarray float))
    (x y : dask_array float) (z : dask_array Z) :
  numblocks (chunks x) = numblocks (chunks y) →
  numblocks (chunks x) = numblocks (chunks z) →
  map_blocks3 self operation x y z =
    let* bs := map3 operation (blocks x) (blocks y) (blocks z) in
    Ok (Darray (chunks x) bs).
Proof. intros Hy Hz. unfold map_blocks3. by rewrite decide_True. Qed.

Lemma map_blocks3_aligned
    (operation : ndarray float → ndarray float → ndarray Z →
                 result (ndarray float))
    (x y : dask_array float) (z : dask_array Z) :
  numblocks (chunks x) = numblocks (chunks y) →
  numblocks (chunks x) = numblocks (chunks z) →
  (∀ a b c e, operation a b c = Raise e → e = IndexError) →
  match map_blocks3 self operation x y z with
  | Ok r => chunks (setitem_isnan_zero r) = chunks x
  | Raise e => e = IndexError
  end.
Proof.
  intros Hy Hz Hop. rewrite map_blocks3_positional by done.
  destruct (map3 operation (blocks x) (blocks y) (blocks z)) as [bs|e] eqn:E;
    cbn [bind]; [done|]. by eapply map3_raise.
Qed.

End WithInstance.

End VolumeFacts.

Export VolumeFacts.

(** ** Labels and segments *)

Module RelabelFacts.

Lemma elem_of_concat {A : Type} (x : A) (ls : list (list A)) :
  x ∈ concat ls ↔ ∃ l, l ∈ ls ∧ x ∈ l.
Proof.
  induction ls as [|l ls IH]; cbn [concat].
  - split; [by intros ?%elem_of_nil|by intros (? & ?%elem_of_nil & _)].
  - rewrite elem_of_app, IH. split.
    + intros [H|(l' & H1 & H2)]; [exists l; split; [by left|done]|].
      exists l'. split; [by right|done].
    + intros (l' & [->|H1]%elem_of_cons & H2); [by left|]. right. by exists l'.
Qed.

(** The elements of a block are what indexing reaches. *)
Lemma elem_of_elements {A : Type} (c : ndarray A) (x : A) :
  x ∈ elements c ↔ ∃ i j k, getitem3 c i j k = Ok x.
Proof.
  unfold elements. rewrite elem_of_concat. split.
  - intros (t & (row & Hrow & Ht)%elem_of_concat & Hx).
    apply list_elem_of_lookup in Hrow as [i Hi], Ht as [j Hj], Hx as [k Hk].
    exists i, j, k. apply (getitem3_trace c i j k t); [|done].
    apply trace_at_Ok. by exists row.
  - intros (i & j & k & H). unfold getitem3 in H.
    destruct (trace_at c i j) as [t|] eqn:Ht; cbn [bind] in H; [|done].
    apply trace_at_Ok in Ht as (row & Hrow & Ht).
    unfold getitem in H. destruct (t !! k) as [y|] eqn:Hk; [|done]. simplify_eq.
    exists t. split; [|by eapply list_elem_of_lookup_2].
    apply elem_of_concat. exists row.
    split; by eapply list_elem_of_lookup_2.
Qed.

Lemma has_shape_cmap {A B : Type} (f : A → B) (s : shape3) (c : ndarray A) :
  has_shape s c → has_shape s (cmap f c).
Proof.
  destruct s as [[n0 n1] n2]. intros [Hl Hrows]. unfold cmap.
  split; [by rewrite length_fmap|].
  apply Forall_fmap. eapply Forall_impl; [exact Hrows|].
  intros row [Hrl Hts]. cbn. split; [by rewrite length_fmap|].
  apply Forall_fmap. eapply Forall_impl; [exact Hts|].
  intros t Ht. cbn. by rewrite length_fmap.
Qed.

Lemma trace_at_cmap {A B : Type} (f : A → B) (c : ndarray A) (i j : nat)
    (t : list A) :
  trace_at c i j = Ok t → trace_at (cmap f c) i j = Ok (f <$> t).
Proof.
  intros (row & Hrow & Ht)%trace_at_Ok. apply trace_at_Ok.
  exists ((λ t : list A, f <$> t) <$> row). split.
  - unfold cmap. by rewrite list_lookup_fmap, Hrow.
  - by rewrite list_lookup_fmap, Ht.
Qed.

(** Blocks of one shape with the same traces are the same block. *)
Lemma has_shape_ext {A : Type} (n0 n1 n2 : nat) (a b : ndarray A) :
  has_shape (n0, n1, n2) a → has_shape (n0, n1, n2) b →
  (∀ i j, i < n0 → j < n1 → trace_at a i j = trace_at b i j) → a = b.
Proof.
  intros [Hla Ha] [Hlb Hb] H. apply list_eq. intros i.
  destruct (decide (i < n0)) as [Hi|Hi];
    [|by rewrite !lookup_ge_None_2 by lia].
  destruct (lookup_lt_is_Some_2 a i) as [ra Hra]; [lia|].
  destruct (lookup_lt_is_Some_2 b i) as [rb Hrb]; [lia|].
  rewrite Hra, Hrb. f_equal.
  pose proof (Forall_lookup_1 _ _ _ _ Ha Hra) as [Hral _].
  pose proof (Forall_lookup_1 _ _ _ _ Hb Hrb) as [Hrbl _].
  apply list_eq. intros j.
  destruct (decide (j < n1)) as [Hj|Hj];
    [|by rewrite !lookup_ge_None_2 by lia].
  specialize (H i j Hi Hj). unfold trace_at, getitem in H.
  rewrite Hra, Hrb in H. cbn [bind] in H.
  destruct (lookup_lt_is_Some_2 ra j) as [ta Hta]; [lia|].
  destruct (lookup_lt_is_Some_2 rb j) as [tb Htb]; [lia|].
  rewrite Hta, Htb in *. congruence.
Qed.

(** An injective relabelling keeps the segments. *)
Lemma where_eq_fmap_inj (f : Z → Z) `{!Inj (=) (=) f} (ids : list Z) (ii : Z) :
  where_eq (f <$> ids) (f ii) = where_eq ids ii.
Proof.
  unfold where_eq. rewrite length_fmap. apply list_filter_iff. intros k.
  rewrite list_lookup_fmap. destruct (ids !! k) as [x|]; cbn.
  - split; intros [= E]; f_equal; [by apply (inj f)|congruence].
  - split; intros [=].
Qed.

Section Relabel.

Variable value : nat → nat → nat → result float.
Variables chunk1 : ndarray float.
Variable chunk3 : ndarray Z.
Variables n0 n1 n2 : nat.
Variable f : Z → Z.

Hypothesis f_inj : Inj (=) (=) f.
Hypothesis chunk1_shape : has_shape (n0, n1, n2) chunk1.
Hypothesis chunk3_shape : has_shape (n0, n1, n2) chunk3.
Hypothesis value_ok :
  ∀ i j peak, i < n0 → j < n1 → peak < n2 → ∃ v, value i j peak = Ok v.

Lemma peak_pick_relabel :
  peak_pick value chunk1 (cmap f chunk3) = peak_pick value chunk1 chunk3.
Proof.
  pose proof (has_shape_cmap f _ _ chunk3_shape) as Hs3.
  destruct (peak_pick_ok value chunk1 chunk3 n0 n1 n2)
    as (out & Hrun & Hshape & Hdone); [done..|].
  destruct (peak_pick_ok value chunk1 (cmap f chunk3) n0 n1 n2)
    as (out' & Hrun' & Hshape' & Hdone'); [done..|].
  rewrite Hrun, Hrun'. f_equal.
  apply (has_shape_ext n0 n1 n2); [done..|]. intros i j Hi Hj.
  destruct (has_shape_trace_at _ _ _ _ _ _ chunk1_shape Hi Hj) as (reference & Href & Hlr).
  destruct (has_shape_trace_at _ _ _ _ _ _ chunk3_shape Hi Hj) as (ids & Hids & Hli).
  destruct (has_shape_trace_at _ _ _ _ _ _ Hshape Hi Hj) as (t & Ht & Hlt).
  destruct (has_shape_trace_at _ _ _ _ _ _ Hshape' Hi Hj) as (t' & Ht' & Hlt').
  rewrite Ht, Ht'. f_equal. apply list_eq. intros k.
  destruct (decide (k < n2)) as [Hk|Hk];
    [|by rewrite !lookup_ge_None_2 by lia].
  destruct (lookup_lt_is_Some_2 ids k) as [ii Hii]; [lia|].
  destruct (Hdone i j Hi Hj reference ids k ii Href Hids Hii)
    as (p & v & Hp & Hv & Hget).
  destruct (Hdone' i j Hi Hj reference (f <$> ids) k (f ii) Href)
    as (q & w & Hq & Hw & Hget').
  { by apply trace_at_cmap. }
  { by rewrite list_lookup_fmap, Hii. }
  rewrite where_eq_fmap_inj in Hq by done.
  assert (q = p) as -> by (by eapply is_peak_unique).
  rewrite Hv in Hw. simplify_eq.
  apply (getitem3_trace _ _ _ _ t) in Hget; [|done].
  apply (getitem3_trace _ _ _ _ t') in Hget'; [|done]. congruence.
Qed.

End Relabel.

End RelabelFacts.

Export RelabelFacts.

(** ** The journal of the assignments *)

Module JournalFacts.


Section Journal.

Variable value : nat → nat → nat → result float.
Variables chunk1 : ndarray float.
Variable chunk3 : ndarray Z.






Variables n0 n1 n2 : nat.

Hypothesis chunk1_shape : has_shape (n0, n1, n2) chunk1.
Hypothesis chunk3_shape : has_shape (n0, n1, n2) chunk3.
Hypothesis value_ok :
  ∀ i j peak, i < n0 → j < n1 → peak < n2 → ∃ v, value i j peak = Ok v.





End Journal.

End JournalFacts.

Export JournalFacts.

(** * Scenarios *)

Module Scenarios.

(** The constants are the floats nearest to the integers they stand for. *)
Example integer_constants :
  of_Z 1 = one ∧ of_Z (-1) = minus_one ∧ of_Z 2 = two ∧ of_Z 5 = five ∧
  of_Z 1000 = thousand ∧ valid pi = true.
Proof. repeat split; reflexivity. Qed.

(** Scenario 1 of the specification: the trace [1, 3, 5, 3, 1, 3, 5, 1] has
    one interior minimum, at position 4; the labels are
    [0, 0, 0, 0, 1, 1, 1, 1]; with the trace as its own companion every
    sample becomes 5. *)
Example scenario_1 :
  let e := of_Z <$> [1; 3; 5; 3; 1; 3; 5; 1]%Z in
  local_events_trace flt e =
    [false; false; false; false; true; false; false; false] ∧
  cumsum (local_events_trace flt e) = [0; 0; 0; 0; 1; 1; 1; 1]%Z ∧
  response_phase_operation [[e]] [[e]] [[cumsum (local_events_trace flt e)]] =
    Ok [[replicate 8 five]].
Proof. repeat split; reflexivity. Qed.

(** [argmax] takes the first of two equal maxima, and a NaN wherever it
    stands. *)
Example argmax_ties_and_nan :
  argmax [one; two; two; one] = Ok 1 ∧ argmax [one; two; nan; five] = Ok 2.
Proof. split; reflexivity. Qed.

(** A companion shorter than the reference fails inside the pass, when a
    peak falls outside it. *)
Example companion_too_short :
  response_phase_operation [[of_Z <$> [1; 2]%Z]] [[of_Z <$> [7]%Z]] [[[0; 0]%Z]]
    = Raise IndexError.
Proof. reflexivity. Qed.

(** The quotients of the relative amplitude change at a zero envelope. *)
Example division_by_zero_envelope :
  fdiv zero zero = nan ∧ fdiv one zero = infinity ∧
  clip minus_one one (fdiv one zero) = one ∧
  clip minus_one one (fdiv minus_one zero) = minus_one.
Proof. repeat split; reflexivity. Qed.

(** The division by the sample rate: a zero Python number raises, a zero
    numpy scalar gives an infinity, and the default of 4 gives 250. *)
Example sample_rates :
  truediv_1000 default_sample_rate = Ok (of_Z 250) ∧
  truediv_1000 (py_int 0) = Raise ZeroDivisionError ∧
  truediv_1000 (py_float zero) = Raise ZeroDivisionError ∧
  truediv_1000 (py_float (S754_zero true)) = Raise ZeroDivisionError ∧
  truediv_1000 (np_float64 zero) = Ok infinity ∧
  thousand_over (-3) = fdiv thousand (of_Z (-3)) ∧
  thousand_over 7 = fdiv thousand (of_Z 7).
Proof. repeat split; reflexivity. Qed.

End Scenarios.


(** * The statements of the specification *)

(** Blocks that fit a depth, on concrete chunks. *)
Ltac solve_fits :=
  match goal with
  | |- fits ?h ?cs => exact (bool_decide_unpack (fits h cs) I)
  end.

(** C1 (evaluation at the failing input).  On a dask array of shape
    (1, 1, 30) held in one block, with the default sample rate and the default
    kernel, [instantaneous_frequency] returns an array of shape (1, 1, 54):
    the halo of twelve samples that its first line adds on both sides of the
    fast axis is still there, so the returned shape is not the input's.
    [envelope], like every other method, returns the shape (1, 1, 30). *)
Theorem instantaneous_frequency_shape_1_1_30 (self : ComplexAttributes) :
  let d := Darray ([1], [1], [30])%Z [zeros (1, 1, 30)] in
  da_shape d = (1, 1, 30)%Z ∧
  ∃ r e,
    instantaneous_frequency self (Dask d) default_sample_rate default_kernel None
      = Ok r ∧
    da_shape r = (1, 1, 54)%Z ∧
    envelope self (Dask d) default_kernel None = Ok e ∧
    da_shape e = (1, 1, 30)%Z.
Proof.
  intros d. split; [reflexivity|].
  destruct (instantaneous_frequency_fits self d default_sample_rate default_kernel
              None (of_Z 250)) as (r & Hr & Hc); [solve_fits|solve_fits|reflexivity|].
  destruct (envelope_fits self d default_kernel None) as (e & He & Hec); [solve_fits|].
  exists r, e. split; [done|]. split; [unfold da_shape; rewrite Hc; reflexivity|].
  split; [done|]. unfold da_shape. rewrite Hec. reflexivity.
Qed.






(** C4 (counterexample).  Where the envelope and its derivative are both
    zero (a silent trace), the quotient is 0/0 = NaN, [clip] lets the NaN
    through, and NaN is not in [-1, 1]. *)
Lemma relative_amplitude_change_zero_over_zero :
  cmap (clip minus_one one) (czip fdiv [[[zero]]] [[[zero]]]) = [[[nan]]] ∧
  ¬ Forall (λ r, fle minus_one r = true ∧ fle r one = true)
      (elements (cmap (clip minus_one one) (czip fdiv [[[zero]]] [[[zero]]]))).
Proof.
  split; [reflexivity|].
  intros H. apply Forall_cons in H as [[H _] _]. discriminate.
Qed.

(** C4 (amended).  [relative_amplitude_change] returns the clipped quotient
    of the envelope's derivative by the envelope; every element of it lies
    in [-1, 1] unless the quotient there is NaN, in which case the element is
    NaN.  Where the envelope is zero the element is NaN if the derivative is
    zero or NaN as well, and 1 or -1 otherwise.  The method returns whenever
    [envelope] does; what [envelope] raises, the ValueError of a volume
    smaller than the halo, it raises too. *)
Theorem relative_amplitude_change_clipped (self : ComplexAttributes)
    (darray : volume) (kernel : triple) (preview : option preview) :
  let d := as_dask self darray None preview in
  match envelope self (Dask d) kernel None with
  | Ok env =>
      ∃ quotient,
        elemwise2 self fdiv (first_derivative self env) env = Ok quotient ∧
        relative_amplitude_change self darray kernel preview =
          Ok (elemwise (clip minus_one one) quotient) ∧
        Forall (λ q, let r := clip minus_one one q in
                     if isnan q then r = nan
                     else fle minus_one r = true ∧ fle r one = true)
               (da_elements quotient)
  | Raise e =>
      relative_amplitude_change self darray kernel preview = Raise e ∧
      e = ValueError
  end ∧
  (∀ p e : float, feq e zero = true →
     let r := clip minus_one one (fdiv p e) in
     if isnan p || feq p zero then r = nan else r = one ∨ r = minus_one).
Proof.
  intros d. split.
  - rewrite relative_amplitude_change_envelope. fold d.
    destruct (envelope self (Dask d) kernel None) as [env|e] eqn:E; cbn [bind].
    + unfold elemwise2. cbn [first_derivative chunks].
      rewrite decide_True by done.
      eexists. split; [reflexivity|]. split; [reflexivity|].
      apply Forall_forall. intros q _. cbn zeta.
      destruct (isnan q) eqn:Hq.
      * by float_cases q.
      * by apply clip_bounds.
    + split; [done|]. by apply envelope_raise in E as [-> _].
  - intros p e He. cbn zeta.
    float_cases e; float_cases p; (by left) || (by right).
Qed.

(** C5 (counterexample).  A peak-pick output that holds an infinity (here
    the response amplitude of a one-sample trace whose amplitude is
    infinite) keeps it through the post-pass. *)
Lemma post_pass_keeps_infinity :
  response_amplitude_operation [[[infinity]]] [[[infinity]]] [[[0%Z]]]
    = Ok [[[infinity]]] ∧
  da_elements (setitem_isnan_zero (Darray ([1], [1], [1])%Z [[[[infinity]]]]))
    = [infinity] ∧
  isinf infinity = true.
Proof. repeat split; reflexivity. Qed.

(** C5 (amended).  The post-pass replaces every NaN of a peak-pick output
    with 0 and leaves every other value, the infinities among them, as it
    is; so what the four methods return holds no NaN. *)
Theorem post_pass_scrubs_nan (self : ComplexAttributes) :
  (∀ result : dask_array float,
     da_elements (setitem_isnan_zero result) =
       (λ x, if isnan x then zero else x) <$> da_elements result) ∧
  (∀ darray sample_rate kernel preview,
     let no_nan (m : result (dask_array float)) :=
       match m with
       | Ok r => Forall (λ x, isnan x = false) (da_elements r)
       | Raise _ => True
       end in
     no_nan (response_phase self darray kernel preview) ∧
     no_nan (response_frequency self darray sample_rate kernel preview) ∧
     no_nan (response_amplitude self darray kernel preview) ∧
     no_nan (apparent_polarity self darray kernel preview)).
Proof.
  split; [apply setitem_isnan_zero_elements|].
  intros darray sample_rate kernel preview no_nan. subst no_nan. cbn beta.
  unfold response_phase, response_frequency, response_amplitude, apparent_polarity.
  rewrite create_array_None. cbn [bind].
  destruct (envelope self _ kernel None) as [env|]; cbn [bind]; [|done].
  repeat split.
  - destruct (instantaneous_phase _ _ _ _); cbn [bind]; [|done].
    destruct (map_blocks3 _ _ _ _ _); cbn [bind]; [|done].
    apply setitem_isnan_zero_no_nan.
  - destruct (instantaneous_frequency _ _ _ _ _); cbn [bind]; [|done].
    destruct (map_blocks3 _ _ _ _ _); cbn [bind]; [|done].
    apply setitem_isnan_zero_no_nan.
  - destruct (map_blocks3 _ _ _ _ _); cbn [bind]; [|done].
    apply setitem_isnan_zero_no_nan.
  - destruct (map_blocks3 _ _ _ _ _); cbn [bind]; [|done].
    apply setitem_isnan_zero_no_nan.
Qed.

(** C6 (counterexample).  A companion chunk of shape (1, 1, 3) against a
    reference of shape (1, 1, 2): the shapes disagree, nothing is raised, and
    the closure returns an output built from the first samples of the
    companion. *)
Lemma operation_accepts_longer_companion :
  shape [[of_Z <$> [7; 8; 9]%Z]] ≠ shape [[of_Z <$> [1; 2]%Z]] ∧
  response_phase_operation [[of_Z <$> [1; 2]%Z]] [[of_Z <$> [7; 8; 9]%Z]] [[[0; 0]%Z]]
    = Ok [[[of_Z 8; of_Z 8]]].
Proof. split; [discriminate|reflexivity]. Qed.

(** C6 (amended).  The four closures compare no shapes and know no
    ShapeMismatchError.  Whenever the companion chunk is at least as large as
    the reference chunk along every axis, of the same shape or not, each of
    them runs to completion and returns an output of the reference's
    shape. *)
Theorem operations_check_no_shape
    (chunk1 chunk2 : ndarray float) (chunk3 : ndarray Z) (s s2 : shape3) :
  has_shape s chunk1 → has_shape s chunk3 → has_shape s2 chunk2 →
  shape_le s s2 →
  (∃ out, response_phase_operation chunk1 chunk2 chunk3 = Ok out ∧
          response_frequency_operation chunk1 chunk2 chunk3 = Ok out ∧
          response_amplitude_operation chunk1 chunk2 chunk3 = Ok out ∧
          has_shape s out) ∧
  (∃ out, apparent_polarity_operation chunk1 chunk2 chunk3 = Ok out ∧
          has_shape s out).
Proof.
  destruct s as [[n0 n1] n2], s2 as [[m0 m1] m2]. intros H1 H3 H2 Hle.
  split.
  - destruct (take_companion_ok chunk1 chunk2 chunk3 n0 n1 n2 m0 m1 m2 H1 H3 H2 Hle)
      as (out & Hrun & Hshape & _).
    exists out.
    rewrite response_phase_operation_peak_pick,
      response_frequency_operation_peak_pick,
      response_amplitude_operation_peak_pick.
    done.
  - destruct (signed_peak_ok chunk1 chunk2 chunk3 n0 n1 n2 m0 m1 m2 H1 H3 H2 Hle)
      as (out & Hrun & Hshape & _).
    exists out. by rewrite apparent_polarity_operation_peak_pick.
Qed.

(** C6 (witness): the chunks of the counterexample. *)
Lemma operations_check_no_shape_example :
  let r := [[of_Z <$> [1; 2]%Z]] in
  let c := [[of_Z <$> [7; 8; 9]%Z]] in
  let l := [[[0; 0]%Z]] in
  has_shape (1, 1, 2) r ∧ has_shape (1, 1, 2) l ∧ has_shape (1, 1, 3) c ∧
  shape_le (1, 1, 2) (1, 1, 3) ∧
  (∃ out, response_phase_operation r c l = Ok out ∧
          response_frequency_operation r c l = Ok out ∧
          response_amplitude_operation r c l = Ok out ∧
          has_shape (1, 1, 2) out) ∧
  (∃ out, apparent_polarity_operation r c l = Ok out ∧
          has_shape (1, 1, 2) out).
Proof.
  intros r c l.
  assert (has_shape (1, 1, 2) r) as Hr by (vm_compute; repeat constructor).
  assert (has_shape (1, 1, 2) l) as Hl by (vm_compute; repeat constructor).
  assert (has_shape (1, 1, 3) c) as Hc by (vm_compute; repeat constructor).
  assert (shape_le (1, 1, 2) (1, 1, 3)) as Hle by (vm_compute; lia).
  split; [exact Hr|]. split; [exact Hl|]. split; [exact Hc|]. split; [exact Hle|].
  exact (operations_check_no_shape r c l (1, 1, 2) (1, 1, 3) Hr Hl Hc Hle).
Defined.

(** C7 (counterexample).  First, a single-segment trace whose envelope
    peaks, with value 2, where the amplitude crosses zero: [sign] is 0 there,
    every output sample is 0, and the magnitude of the output is not the
    envelope's peak value.  Second, the trace 1, 2, ..., 8, one segment with
    its peak, 8, at the last position: held in one block,
    [apparent_polarity] (with a kernel of (1, 1, 1), no halo) fills it with
    8; held in two blocks of four samples, the closure is handed the blocks
    one after the other and fills the first with 4, the peak value of that
    block, where the claim has 8. *)
Lemma apparent_polarity_zero_companion :
  (cumsum (local_events_trace flt (of_Z <$> [1; 2; 1]%Z)) = [0; 0; 0]%Z ∧
   argmax (of_Z <$> [1; 2; 1]%Z) = Ok 1 ∧
   (of_Z <$> [1; 2; 1]%Z) !! 1 = Some two ∧
   apparent_polarity_operation
     [[of_Z <$> [1; 2; 1]%Z]] [[of_Z <$> [1; 0; -1]%Z]] [[[0; 0; 0]%Z]]
     = Ok [[[zero; zero; zero]]] ∧
   fabs zero ≠ two) ∧
  let t := of_Z <$> [1; 2; 3; 4; 5; 6; 7; 8]%Z in
  let one_block := Darray ([1], [1], [8])%Z [[[t]]] in
  let two_blocks := Darray ([1], [1], [4; 4])%Z [[[take 4 t]]; [[drop 4 t]]] in
  cumsum (local_events_trace flt t) = replicate 8 0%Z ∧
  argmax t = Ok 7 ∧ t !! 7 = Some (of_Z 8) ∧
  apparent_polarity Probe.runtime (Dask one_block) (1, 1, 1)%Z None =
    Ok (Darray ([1], [1], [8])%Z [[[replicate 8 (of_Z 8)]]]) ∧
  apparent_polarity Probe.runtime (Dask two_blocks) (1, 1, 1)%Z None =
    Ok (Darray ([1], [1], [4; 4])%Z
          [[[replicate 4 (of_Z 4)]]; [[replicate 4 (of_Z 8)]]]) ∧
  map3 apparent_polarity_operation
    [[[take 4 t]]; [[drop 4 t]]] [[[take 4 t]]; [[drop 4 t]]]
    [[[replicate 4 0%Z]]; [[replicate 4 0%Z]]]
  = Ok [[[replicate 4 (of_Z 4)]]; [[replicate 4 (of_Z 8)]]] ∧
  of_Z 4 ≠ of_Z 8.
Proof. repeat split; (vm_compute; reflexivity) || discriminate. Qed.

(** C7 (amended).  On chunks of one shape, [apparent_polarity]'s closure
    writes to every position of every segment the reference at the peak of
    the segment times the sign of the companion there.  Hence, on every
    segment, a single-segment trace included, with a positive peak value and
    a companion that is not NaN at the peak: where the companion at the peak
    is not zero, the magnitude of the output is the peak value and its sign
    is the companion's; where the companion at the peak is zero, the output
    is zero for a finite peak value, not the peak value. *)
Theorem apparent_polarity_operation_value
    (chunk1 chunk2 : ndarray float) (chunk3 : ndarray Z) (s : shape3) :
  has_shape s chunk1 → has_shape s chunk2 → has_shape s chunk3 →
  ∃ out,
    apparent_polarity_operation chunk1 chunk2 chunk3 = Ok out ∧
    has_shape s out ∧
    ∀ i j k reference companion ids ii,
      trace_at chunk1 i j = Ok reference →
      trace_at chunk2 i j = Ok companion →
      trace_at chunk3 i j = Ok ids →
      ids !! k = Some ii →
      ∃ peak r c,
        is_peak reference (where_eq ids ii) peak ∧
        reference !! peak = Some r ∧ companion !! peak = Some c ∧
        getitem3 out i j k = Ok (fmul r (sign c)) ∧
        (valid r = true → flt zero r = true → isnan c = false →
           (feq c zero = false →
              fabs (fmul r (sign c)) = r ∧ sign (fmul r (sign c)) = sign c) ∧
           (feq c zero = true → isinf r = false →
              fmul r (sign c) = zero ∧ sign (fmul r (sign c)) = sign c)).
Proof.
  destruct s as [[n0 n1] n2]. intros H1 H2 H3.
  destruct (signed_peak_ok chunk1 chunk2 chunk3 n0 n1 n2 n0 n1 n2 H1 H3 H2
              (shape_le_refl _)) as (out & Hrun & Hshape & Hval).
  exists out. split; [by rewrite apparent_polarity_operation_peak_pick|].
  split; [done|].
  intros i j k reference companion ids ii Href Hcomp Hids Hk.
  destruct (Hval i j k reference companion ids ii Href Hcomp Hids Hk)
    as (peak & r & c & Hpeak & Hr & Hc & Hget).
  exists peak, r, c. repeat (split; [done|]).
  apply signed_value.
Qed.

(** C7 (witness): the single-segment trace of the counterexample. *)
Lemma apparent_polarity_single_segment :
  let r := [[of_Z <$> [1; 2; 1]%Z]] in
  let c := [[of_Z <$> [1; 0; -1]%Z]] in
  let l := [[[0; 0; 0]%Z]] in
  has_shape (1, 1, 3) r ∧ has_shape (1, 1, 3) c ∧ has_shape (1, 1, 3) l ∧
  ∃ out, apparent_polarity_operation r c l = Ok out ∧ has_shape (1, 1, 3) out.
Proof.
  intros r c l.
  assert (has_shape (1, 1, 3) r) as Hr by (vm_compute; repeat constructor).
  assert (has_shape (1, 1, 3) c) as Hc by (vm_compute; repeat constructor).
  assert (has_shape (1, 1, 3) l) as Hl by (vm_compute; repeat constructor).
  split; [exact Hr|]. split; [exact Hc|]. split; [exact Hl|].
  destruct (apparent_polarity_operation_value r c l (1, 1, 3) Hr Hc Hl)
    as (out & Hrun & Hshape & _).
  exists out. split; [exact Hrun|exact Hshape].
Defined.

(** C8.  [cosine_instantaneous_phase] is the angle, in degrees, of the
    angle, in degrees, of the analytic signal: [angle] is applied once to
    the complex analytic signal and a second time to the real,
    degrees-valued instantaneous phase.  Where [hilbert] raises, the
    ValueError of a volume smaller than the halo, the two methods raise the
    same. *)
Theorem cosine_instantaneous_phase_angle_twice (self : ComplexAttributes)
    (darray : volume) (kernel : triple) (preview : option preview) :
  let d := as_dask self darray None preview in
  match hilbert self (Dask d) kernel None with
  | Ok analytic =>
      instantaneous_phase self (Dask d) kernel None =
        Ok (elemwise self.(rad2deg) (elemwise (angle self) analytic)) ∧
      cosine_instantaneous_phase self darray kernel preview =
        Ok (elemwise self.(rad2deg)
              (elemwise (angle_real self)
                 (elemwise self.(rad2deg) (elemwise (angle self) analytic))))
  | Raise e =>
      instantaneous_phase self (Dask d) kernel None = Raise e ∧
      cosine_instantaneous_phase self darray kernel preview = Raise e
  end.
Proof.
  intros d. unfold cosine_instantaneous_phase.
  rewrite create_array_None. fold d. cbn [bind].
  rewrite instantaneous_phase_hilbert.
  destruct (hilbert self (Dask d) kernel None) as [analytic|e]; cbn [bind]; done.
Qed.

(** C9 (evaluation at the failing input).  On a dask array of shape
    (1, 1, 30) held in one block, with the default sample rate and the default
    kernel, [sweetness] raises ValueError: the envelope has the shape
    (1, 1, 30) of the input, the instantaneous frequency the shape
    (1, 1, 54), its halo still on, and the two do not broadcast.  No
    quotient is formed. *)
Theorem sweetness_shape_1_1_30 (self : ComplexAttributes) :
  let d := Darray ([1], [1], [30])%Z [zeros (1, 1, 30)] in
  ∃ env inst_freq,
    envelope self (Dask d) default_kernel None = Ok env ∧
    da_shape env = (1, 1, 30)%Z ∧
    instantaneous_frequency self (Dask d) default_sample_rate default_kernel None
      = Ok inst_freq ∧
    da_shape (map_blocks func inst_freq) = (1, 1, 54)%Z ∧
    sweetness self (Dask d) default_sample_rate default_kernel None
      = Raise ValueError.
Proof.
  intros d.
  destruct (instantaneous_frequency_fits self d default_sample_rate default_kernel
              None (of_Z 250)) as (f & Hf & Hfc); [solve_fits|solve_fits|reflexivity|].
  destruct (envelope_fits self d default_kernel None) as (env & He & Hec); [solve_fits|].
  exists env, f. split; [done|]. split; [unfold da_shape; rewrite Hec; reflexivity|].
  split; [done|].
  split; [unfold da_shape, map_blocks; cbn [chunks]; rewrite Hfc; reflexivity|].
  unfold sweetness. cbn [create_array bind]. rewrite Hf. cbn [bind].
  rewrite He. cbn [bind]. unfold elemwise2, map_blocks. cbn [chunks].
  rewrite decide_False by (rewrite Hec, Hfc; discriminate).
  rewrite decide_False; [done|].
  unfold da_shape. cbn [chunks]. rewrite Hec, Hfc.
  unfold broadcastable, broadcast_axis. cbn. lia.
Qed.

(** C10.  The closures [operation] of [response_phase],
    [response_frequency] and [response_amplitude] are the same function:
    on all chunks they return the same result (the same output, or the same
    exception). *)
Theorem take_companion_operations_equal (chunk1 chunk2 : ndarray float)
    (chunk3 : ndarray Z) :
  response_phase_operation chunk1 chunk2 chunk3 =
    response_frequency_operation chunk1 chunk2 chunk3 ∧
  response_frequency_operation chunk1 chunk2 chunk3 =
    response_amplitude_operation chunk1 chunk2 chunk3.
Proof. split; reflexivity. Qed.


(** * Further properties of the module *)

(** X1.  The constructor stores the keyword [numpy_backend] as the
    attribute [xp] and the keyword [hilbert_cb] as the attribute
    [hilbert_cb], each only when the keyword is given, and sets no other
    attribute: positional arguments and all other keywords are ignored. *)
Theorem init_attributes {pyobject : Type} (args : list pyobject)
    (kwargs : gmap string pyobject) :
  __init__ args kwargs !! "xp" = kwargs !! "numpy_backend" ∧
  __init__ args kwargs !! "hilbert_cb" = kwargs !! "hilbert_cb" ∧
  (∀ name, name ≠ "xp" → name ≠ "hilbert_cb" →
           __init__ args kwargs !! name = None) ∧
  (∀ args' key v, key ≠ "numpy_backend" → key ≠ "hilbert_cb" →
           __init__ args' (<[key := v]> kwargs) = __init__ args kwargs).
Proof.
  unfold __init__. repeat split.
  - destruct (kwargs !! "numpy_backend") as [x|], (kwargs !! "hilbert_cb") as [h|];
      by simplify_map_eq.
  - destruct (kwargs !! "numpy_backend") as [x|], (kwargs !! "hilbert_cb") as [h|];
      by simplify_map_eq.
  - intros name Hx Hh.
    destruct (kwargs !! "numpy_backend") as [x|], (kwargs !! "hilbert_cb") as [h|];
      by simplify_map_eq.
  - intros args' key v Hn Hh. by rewrite !lookup_insert_ne by done.
Qed.



(** X4.  The envelope is the magnitude of what [hilbert] returns, and the
    instantaneous phase its angle in degrees, for every input, kernel and
    preview: the three methods run the same callback on the same blocks, and
    the trim commutes with the elementwise functions.  Where [hilbert]
    raises, the two raise the same. *)
Theorem envelope_is_magnitude_of_hilbert (self : ComplexAttributes)
    (darray : volume) (kernel : triple) (preview : option preview) :
  match hilbert self darray kernel preview with
  | Ok h =>
      envelope self darray kernel preview = Ok (elemwise self.(cabs) h) ∧
      instantaneous_phase self darray kernel preview =
        Ok (elemwise self.(rad2deg) (elemwise (angle self) h)) ∧
      da_elements (elemwise self.(cabs) h) = self.(cabs) <$> da_elements h
  | Raise e =>
      envelope self darray kernel preview = Raise e ∧
      instantaneous_phase self darray kernel preview = Raise e
  end.
Proof.
  rewrite envelope_hilbert, instantaneous_phase_hilbert.
  destruct (hilbert self darray kernel preview) as [h|e]; cbn [bind]; [|done].
  split; [done|]. split; [done|]. apply da_elements_elemwise.
Qed.

(** X5.  [relative_amplitude_change], [amplitude_acceleration] and
    [instantaneous_bandwidth] return exactly when [envelope] does, with the
    chunks of the envelope, which on blocks that fit the half window are
    the chunks of the array they start from: their operands have the same
    chunks, so nothing is left to the alignment of the runtime.  What they
    raise is what [envelope] raises, the ValueError of [overlap]. *)
Theorem amplitude_attributes_return (self : ComplexAttributes)
    (darray : volume) (kernel : triple) (preview : option preview) :
  let d := as_dask self darray None preview in
  match envelope self (Dask d) kernel None with
  | Ok env =>
      (fits (half_window kernel) (chunks d) → chunks env = chunks d) ∧
      ∃ rac acc band,
        relative_amplitude_change self darray kernel preview = Ok rac ∧
        amplitude_acceleration self darray kernel preview = Ok acc ∧
        instantaneous_bandwidth self darray kernel preview = Ok band ∧
        chunks rac = chunks env ∧ chunks acc = chunks env ∧
        chunks band = chunks env
  | Raise e =>
      e = ValueError ∧ ¬ fits (half_window kernel) (chunks d) ∧
      relative_amplitude_change self darray kernel preview = Raise e ∧
      amplitude_acceleration self darray kernel preview = Raise e ∧
      instantaneous_bandwidth self darray kernel preview = Raise e
  end.
Proof.
  intros d.
  assert (relative_amplitude_change self (Dask d) kernel None =
          relative_amplitude_change self darray kernel preview) as Hsame.
  { by rewrite !relative_amplitude_change_envelope. }
  unfold amplitude_acceleration, instantaneous_bandwidth.
  rewrite create_array_None. fold d. cbn [bind]. rewrite Hsame.
  rewrite relative_amplitude_change_envelope. fold d.
  destruct (envelope self (Dask d) kernel None) as [env|e] eqn:E; cbn [bind].
  - split.
    + intros Hfits.
      destruct (envelope_fits self d kernel None Hfits) as (env' & E' & Hc).
      congruence.
    + eexists _, _, _. repeat split; reflexivity.
  - apply envelope_raise in E as [-> Hn]. done.
Qed.


(** X7.  Once the blocks fit the halos and the sample rate divides,
    [sweetness], [dominant_frequency] and [quality_factor] raise ValueError
    on every input that has a block along the fast axis: they combine the
    instantaneous frequency, which has kept its halo of twelve samples on
    both sides of every block, with an array of the shape of the input, and
    the two shapes do not broadcast.  [response_frequency] does not combine
    them elementwise: it hands the blocks of the envelope and the longer
    blocks of the instantaneous frequency to its closure, position by
    position. *)
Theorem frequency_operands_misaligned (self : ComplexAttributes)
    (darray : volume) (sample_rate : number) (kernel : triple)
    (preview : option preview) (fs : float) :
  let d := as_dask self darray None preview in
  fits (0, 0, 12)%Z (chunks d) → fits (half_window kernel) (chunks d) →
  (chunks d).2 ≠ [] → truediv_1000 sample_rate = Ok fs →
  ∃ env inst_freq,
    envelope self (Dask d) kernel None = Ok env ∧ chunks env = chunks d ∧
    instantaneous_frequency self (Dask d) sample_rate kernel None = Ok inst_freq ∧
    chunks inst_freq = overlap_chunks (0, 0, 12)%Z (chunks d) ∧
    ¬ broadcastable (da_shape env) (da_shape inst_freq) ∧
    sweetness self darray sample_rate kernel preview = Raise ValueError ∧
    dominant_frequency self darray sample_rate kernel preview = Raise ValueError ∧
    quality_factor self darray sample_rate kernel preview = Raise ValueError ∧
    response_frequency self darray sample_rate kernel preview =
      let* bs := map3 response_frequency_operation (blocks env) (blocks inst_freq)
                   (blocks (troughs_of self env)) in
      Ok (setitem_isnan_zero (Darray (chunks env) bs)).
Proof.
  intros d H12 Hk Hblocks Hfs.
  destruct (envelope_fits self d kernel None Hk) as (env & Henv & Hec).
  destruct (instantaneous_frequency_fits self d sample_rate kernel None fs H12 Hk Hfs)
    as (f & Hf & Hfc).
  destruct (relative_amplitude_change_fits self d kernel None Hk) as (rac & Hrac & Hrc).
  destruct (instantaneous_bandwidth_fits self d kernel None Hk) as (band & Hband & Hbc).
  assert (∀ x y : dask_array float,
            chunks x = chunks d → chunks y = chunks f →
            chunks x ≠ chunks y ∧ chunks y ≠ chunks x ∧
            ¬ broadcastable (da_shape x) (da_shape y) ∧
            ¬ broadcastable (da_shape y) (da_shape x)) as Hno.
  { intros x y Hx Hy. apply halo_not_broadcastable; rewrite ?Hx; try done.
    congruence. }
  exists env, f. repeat (split; [done|]).
  split; [by apply (Hno env f)|].
  unfold sweetness, dominant_frequency, quality_factor, response_frequency.
  rewrite create_array_None. fold d. cbn [bind].
  rewrite Hf, Henv, Hrac, Hband. cbn [bind].
  split; [|split; [|split]].
  - destruct (Hno env (map_blocks func f)) as (Hc & _ & Hb & _); [done..|].
    unfold elemwise2. by rewrite !decide_False.
  - destruct (Hno band f) as (_ & Hc & _ & Hb); [done..|].
    unfold elemwise2. by rewrite !decide_False.
  - destruct (Hno rac (elemwise (fmul pi) f)) as (_ & Hc & _ & Hb); [done..|].
    unfold elemwise2. by rewrite !decide_False.
  - rewrite map_blocks3_positional; [by destruct (map3 _ _ _ _)| |].
    + by rewrite Hec, Hfc, numblocks_overlap_chunks.
    + by rewrite troughs_of_chunks.
Qed.

(** X7 (witness): a dask array of shape (1, 1, 30) in one block, with the
    default sample rate and kernel. *)
Lemma frequency_operands_misaligned_example :
  ∃ self : ComplexAttributes,
    let d := Darray ([1], [1], [30])%Z [zeros (1, 1, 30)] in
    sweetness self (Dask d) default_sample_rate default_kernel None
      = Raise ValueError ∧
    dominant_frequency self (Dask d) default_sample_rate default_kernel None
      = Raise ValueError ∧
    quality_factor self (Dask d) default_sample_rate default_kernel None
      = Raise ValueError.
Proof.
  exists {|
    hilbert_cb := cmap (λ x, (x, zero));
    cabs := λ z, fabs z.1;
    arctan2 := λ y x, x;
    rad2deg := id;
    deg2rad := id;
    hypot := λ x y, x;
    unwrap := id;
    compute_chunk_size := λ _ _ _ _, (1, 1, 1)%Z;
    from_array_chunks := λ _ _, ([], [], []);
    from_array_blocks := λ a _, [a];
    overlap_blocks := λ x _ _, blocks x;
    overlap_rechunk := λ _ _ _, None;
    da_compute := λ x, [];
    cumsum_blocks := λ x, [];
    unify_chunks2 := λ _ _, Raise ValueError;
    blockwise3 := λ _ _ _, Raise ValueError;
    first_derivative_blocks := blocks
  |}.
  intros d.
  match goal with |- context [sweetness ?s _ _ _ _] => set (self := s) end.
  destruct (frequency_operands_misaligned self (Dask d) default_sample_rate
              default_kernel None (of_Z 250))
    as (env & f & _ & _ & _ & _ & _ & Hs & Hd & Hq & _).
  - solve_fits.
  - solve_fits.
  - discriminate.
  - reflexivity.
  - split; [exact Hs|]. split; [exact Hd|exact Hq].
Defined.

(** X8.  No element of what [instantaneous_frequency] and
    [instantaneous_bandwidth] return is negative: each is an absolute value,
    or an absolute value divided by 2 pi, so its sign bit is clear (or it is a
    NaN) and it does not compare below zero. *)
Theorem frequency_and_bandwidth_not_negative (self : ComplexAttributes)
    (darray : volume) (sample_rate : number) (kernel : triple)
    (preview : option preview) :
  let not_negative (m : result (dask_array float)) :=
    match m with
    | Ok r => Forall (λ x, fabs x = x ∧ flt x zero = false) (da_elements r)
    | Raise _ => True
    end in
  not_negative (instantaneous_frequency self darray sample_rate kernel preview) ∧
  not_negative (instantaneous_bandwidth self darray kernel preview).
Proof.
  intros not_negative. subst not_negative. cbn beta. split.
  - unfold instantaneous_frequency.
    destruct (create_array self darray _ None reflect preview) as [[d ci]|];
      cbn [bind]; [|done].
    destruct (truediv_1000 sample_rate) as [fs|e]; cbn [bind]; [|done].
    destruct (instantaneous_phase self (Dask d) kernel None); cbn [bind]; [|done].
    rewrite da_elements_elemwise. apply Forall_fmap, Forall_forall.
    intros x _. apply fabs_not_negative.
  - unfold instantaneous_bandwidth. rewrite create_array_None. cbn [bind].
    destruct (relative_amplitude_change self _ kernel None) as [rac|e];
      cbn [bind]; [|done].
    rewrite !da_elements_elemwise. apply Forall_fmap, Forall_fmap, Forall_forall.
    intros x _. apply fdiv_fabs_two_pi.
Qed.

(** X9.  [func], the floor of [sweetness], changes no shape and is
    idempotent: a second pass finds nothing below 5. *)
Theorem func_idempotent (chunk : ndarray float) :
  func (func chunk) = func chunk ∧ shape (func chunk) = shape chunk.
Proof.
  unfold func. split; [|apply shape_cmap].
  rewrite cmap_cmap. apply cmap_ext. intros x. cbn.
  destruct (flt x five) eqn:E; [reflexivity|by rewrite E].
Qed.

(** X10.  On blocks that fit the half window, [response_phase],
    [response_amplitude] and [apparent_polarity] hand three arrays of the
    same chunks to their closure: the blocks are processed one by one, the
    result has the chunks of the array the method starts from, and the only
    exception that can come out is the IndexError of a closure. *)
Theorem response_attributes_keep_chunks (self : ComplexAttributes)
    (darray : volume) (kernel : triple) (preview : option preview) :
  let d := as_dask self darray None preview in
  let aligned (m : result (dask_array float)) :=
    fits (half_window kernel) (chunks d) →
    match m with
    | Ok r => chunks r = chunks d ∧ da_shape r = da_shape d
    | Raise e => e = IndexError
    end in
  aligned (response_phase self darray kernel preview) ∧
  aligned (response_amplitude self darray kernel preview) ∧
  aligned (apparent_polarity self darray kernel preview).
Proof.
  intros d aligned. subst aligned. cbn beta.
  unfold response_phase, response_amplitude, apparent_polarity.
  rewrite create_array_None. fold d. cbn [bind].
  assert (∀ op x y z,
            chunks x = chunks d → chunks y = chunks d → chunks z = chunks d →
            (∀ a b c e, op a b c = Raise e → e = IndexError) →
            match (let* result := map_blocks3 self op x y z in
                   Ok (setitem_isnan_zero result)) with
            | Ok r => chunks r = chunks d ∧ da_shape r = da_shape d
            | Raise e => e = IndexError
            end) as Hall.
  { intros op x y z Hx Hy Hz Hop.
    pose proof (map_blocks3_aligned self op x y z) as H.
    destruct (map_blocks3 self op x y z) as [r|e]; cbn [bind].
    - assert (chunks (setitem_isnan_zero r) = chunks d) as Hc.
      { rewrite <- Hx. apply H; [congruence|congruence|done]. }
      split; [done|]. unfold da_shape. by rewrite Hc.
    - apply H; [congruence|congruence|done]. }
  repeat split; intros Hfits;
    destruct (envelope_fits self d kernel None Hfits) as (env & -> & Henv);
    cbn [bind].
  - destruct (instantaneous_phase_fits self d kernel None Hfits) as (p & -> & Hp).
    cbn [bind]. apply Hall; try done.
    intros a b c e. rewrite response_phase_operation_peak_pick.
    apply peak_pick_raise. intros ????. apply take_companion_raise.
  - apply Hall; try done.
    intros a b c e. rewrite response_amplitude_operation_peak_pick.
    apply peak_pick_raise. intros ????. apply take_companion_raise.
  - apply Hall; try done.
    intros a b c e. rewrite apparent_polarity_operation_peak_pick.
    apply peak_pick_raise. intros ????. apply signed_peak_raise.
Qed.

(** X11.  The post-pass of the response attributes changes nothing but NaN:
    an array without NaN comes back as it is, chunks and blocks, and a second
    pass changes nothing. *)
Theorem post_pass_fixes_nan_free :
  (∀ result : dask_array float,
     Forall (λ x, isnan x = false) (da_elements result) →
     setitem_isnan_zero result = result) ∧
  (∀ result : dask_array float,
     setitem_isnan_zero (setitem_isnan_zero result) = setitem_isnan_zero result) ∧
  (∀ result : dask_array float,
     chunks (setitem_isnan_zero result) = chunks result).
Proof.
  assert (∀ result : dask_array float,
            Forall (λ x, isnan x = false) (da_elements result) →
            setitem_isnan_zero result = result) as Hfix.
  { intros result H. apply elemwise_fixed.
    eapply Forall_impl; [exact H|]. intros x Hx. cbn. by rewrite Hx. }
  split; [done|]. split; [|done].
  intros result. apply Hfix, setitem_isnan_zero_no_nan.
Qed.

(** X12.  Whatever the chunks, of one shape or not, rectangular or not, the
    only exception the four [operation] closures raise is an IndexError:
    [argmax] never sees an empty selection (a ValueError), because every
    label the inner loop visits occurs in the trace. *)
Theorem operations_raise_only_index_error (chunk1 chunk2 : ndarray float)
    (chunk3 : ndarray Z) :
  let only_index_error (m : result (ndarray float)) :=
    match m with Ok _ => True | Raise e => e = IndexError end in
  only_index_error (response_phase_operation chunk1 chunk2 chunk3) ∧
  only_index_error (response_frequency_operation chunk1 chunk2 chunk3) ∧
  only_index_error (response_amplitude_operation chunk1 chunk2 chunk3) ∧
  only_index_error (apparent_polarity_operation chunk1 chunk2 chunk3).
Proof.
  intros only_index_error. subst only_index_error. cbn beta.
  rewrite response_phase_operation_peak_pick,
    response_frequency_operation_peak_pick,
    response_amplitude_operation_peak_pick,
    apparent_polarity_operation_peak_pick.
  assert (∀ e, peak_pick (take_companion chunk2) chunk1 chunk3 = Raise e →
               e = IndexError) as Htake.
  { intros e. apply peak_pick_raise. intros i j p e'. apply take_companion_raise. }
  assert (∀ e, peak_pick (signed_peak chunk1 chunk2) chunk1 chunk3 = Raise e →
               e = IndexError) as Hsigned.
  { intros e. apply peak_pick_raise. intros i j p e'. apply signed_peak_raise. }
  destruct (peak_pick (take_companion chunk2) chunk1 chunk3);
    destruct (peak_pick (signed_peak chunk1 chunk2) chunk1 chunk3); auto.
Qed.

(** X13.  A companion that lacks the sample at the peak of some segment makes
    all four closures raise an IndexError, whatever the rest of the chunks
    holds: the loops read the companion at every peak. *)
Theorem operations_fail_on_missing_companion
    (chunk1 chunk2 : ndarray float) (chunk3 : ndarray Z) (s : shape3)
    (i j peak : nat) (reference : list float) (ids : list Z) (ii : Z) :
  has_shape s chunk1 → has_shape s chunk3 →
  trace_at chunk1 i j = Ok reference → trace_at chunk3 i j = Ok ids →
  ii ∈ ids → is_peak reference (where_eq ids ii) peak →
  getitem3 chunk2 i j peak = Raise IndexError →
  response_phase_operation chunk1 chunk2 chunk3 = Raise IndexError ∧
  response_frequency_operation chunk1 chunk2 chunk3 = Raise IndexError ∧
  response_amplitude_operation chunk1 chunk2 chunk3 = Raise IndexError ∧
  apparent_polarity_operation chunk1 chunk2 chunk3 = Raise IndexError.
Proof.
  destruct s as [[n0 n1] n2]. intros H1 H3 Href Hids Hii Hpeak Hmiss.
  rewrite response_phase_operation_peak_pick,
    response_frequency_operation_peak_pick,
    response_amplitude_operation_peak_pick,
    apparent_polarity_operation_peak_pick.
  assert (peak_pick (take_companion chunk2) chunk1 chunk3 = Raise IndexError)
    as Htake.
  { destruct (peak_pick (take_companion chunk2) chunk1 chunk3) as [out|e] eqn:E.
    - destruct (peak_pick_Ok_value (take_companion chunk2) chunk1 chunk3 n0 n1 n2
                  H1 H3 out i j peak reference ids ii)
        as [v Hv]; [done..|].
      unfold take_companion in Hv. congruence.
    - f_equal. revert E. apply peak_pick_raise.
      intros ????. apply take_companion_raise. }
  assert (peak_pick (signed_peak chunk1 chunk2) chunk1 chunk3 = Raise IndexError)
    as Hsigned.
  { destruct (peak_pick (signed_peak chunk1 chunk2) chunk1 chunk3) as [out|e] eqn:E.
    - destruct (peak_pick_Ok_value (signed_peak chunk1 chunk2) chunk1 chunk3 n0 n1 n2
                  H1 H3 out i j peak reference ids ii)
        as [v Hv]; [done..|].
      unfold signed_peak in Hv. rewrite Hmiss in Hv.
      destruct (getitem3 chunk1 i j peak); done.
    - f_equal. revert E. apply peak_pick_raise.
      intros ????. apply signed_peak_raise. }
  done.
Qed.

(** X13 (witness): a reference [1, 2] with one segment, whose peak is at
    position 1, and a companion of one sample. *)
Lemma operations_fail_on_missing_companion_example :
  let r := [[of_Z <$> [1; 2]%Z]] in
  let c := [[of_Z <$> [7]%Z]] in
  let l := [[[0; 0]%Z]] in
  response_phase_operation r c l = Raise IndexError ∧
  response_frequency_operation r c l = Raise IndexError ∧
  response_amplitude_operation r c l = Raise IndexError ∧
  apparent_polarity_operation r c l = Raise IndexError.
Proof.
  intros r c l.
  apply (operations_fail_on_missing_companion r c l (1, 1, 2) 0 0 1
           (of_Z <$> [1; 2]%Z) [0; 0]%Z 0%Z).
  - vm_compute. repeat constructor.
  - vm_compute. repeat constructor.
  - reflexivity.
  - reflexivity.
  - apply elem_of_cons. by left.
  - split; [vm_compute; apply elem_of_cons; right; apply elem_of_cons; by left|].
    exists two. split; [reflexivity|].
    intros m rm Hm Hrm. vm_compute in Hm.
    apply elem_of_cons in Hm as [->|Hm].
    { vm_compute in Hrm. injection Hrm as <-. split; [reflexivity|]. intros _. reflexivity. }
    apply elem_of_cons in Hm as [->|Hm].
    { vm_compute in Hrm. injection Hrm as <-. split; [reflexivity|]. intros Hlt. exfalso. lia. }
    exfalso. by apply elem_of_nil in Hm.
  - reflexivity.
Defined.

(** X14.  On chunks of one shape the output of each closure is constant on
    every segment: two samples of a trace that carry the same label hold the
    same value. *)
Theorem operations_constant_on_segments
    (chunk1 chunk2 : ndarray float) (chunk3 : ndarray Z) (s : shape3) :
  has_shape s chunk1 → has_shape s chunk2 → has_shape s chunk3 →
  ∃ out pol,
    response_phase_operation chunk1 chunk2 chunk3 = Ok out ∧
    response_frequency_operation chunk1 chunk2 chunk3 = Ok out ∧
    response_amplitude_operation chunk1 chunk2 chunk3 = Ok out ∧
    apparent_polarity_operation chunk1 chunk2 chunk3 = Ok pol ∧
    ∀ i j k k' ids ii,
      trace_at chunk3 i j = Ok ids → ids !! k = Some ii → ids !! k' = Some ii →
      getitem3 out i j k = getitem3 out i j k' ∧
      getitem3 pol i j k = getitem3 pol i j k'.
Proof.
  destruct s as [[n0 n1] n2]. intros H1 H2 H3.
  destruct (peak_pick_ok (take_companion chunk2) chunk1 chunk3 n0 n1 n2)
    as (out & Hrun & Hshape & Hdone); [done|done| |].
  { apply (companion_lookup chunk2 n0 n1 n2 n0 n1 n2 H2 (shape_le_refl _)). }
  destruct (peak_pick_ok (signed_peak chunk1 chunk2) chunk1 chunk3 n0 n1 n2)
    as (pol & Hrunp & Hshapep & Hdonep); [done|done| |].
  { intros i j p. by apply signed_peak_value_ok. }
  exists out, pol.
  rewrite response_phase_operation_peak_pick,
    response_frequency_operation_peak_pick,
    response_amplitude_operation_peak_pick,
    apparent_polarity_operation_peak_pick.
  repeat (split; [done|]).
  intros i j k k' ids ii Hids Hk Hk'.
  destruct (has_shape_trace_at_inv _ _ _ _ _ _ _ H3 Hids) as (Hi & Hj & _).
  split.
  - eapply (trace_done_constant (take_companion chunk2) chunk1 chunk3); eauto.
  - eapply (trace_done_constant (signed_peak chunk1 chunk2) chunk1 chunk3); eauto.
Qed.

(** X14 (witness): the chunks of scenario 1. *)
Lemma operations_constant_on_segments_example :
  let e := of_Z <$> [1; 3; 5; 3; 1; 3; 5; 1]%Z in
  let l := [0; 0; 0; 0; 1; 1; 1; 1]%Z in
  ∃ out pol,
    response_phase_operation [[e]] [[e]] [[l]] = Ok out ∧
    response_frequency_operation [[e]] [[e]] [[l]] = Ok out ∧
    response_amplitude_operation [[e]] [[e]] [[l]] = Ok out ∧
    apparent_polarity_operation [[e]] [[e]] [[l]] = Ok pol ∧
    ∀ i j k k' ids ii,
      trace_at [[l]] i j = Ok ids → ids !! k = Some ii → ids !! k' = Some ii →
      getitem3 out i j k = getitem3 out i j k' ∧
      getitem3 pol i j k = getitem3 pol i j k'.
Proof.
  intros e l.
  apply (operations_constant_on_segments [[e]] [[e]] [[l]] (1, 1, 8));
    vm_compute; repeat constructor.
Defined.

(** X15.  A trace whose labels are all equal (an envelope with no interior
    minimum) is one segment: the closures fill the whole output trace with
    one value, the companion at the first maximum of the whole reference
    trace, and [apparent_polarity] with the reference there times the sign of
    the companion there. *)
Theorem operations_single_segment
    (chunk1 chunk2 : ndarray float) (chunk3 : ndarray Z) (s : shape3)
    (i j : nat) (reference companion : list float) (ids : list Z) (c : Z) :
  has_shape s chunk1 → has_shape s chunk2 → has_shape s chunk3 →
  trace_at chunk1 i j = Ok reference → trace_at chunk2 i j = Ok companion →
  trace_at chunk3 i j = Ok ids →
  ids ≠ [] → Forall (λ ii, ii = c) ids →
  ∃ out pol peak r v,
    response_phase_operation chunk1 chunk2 chunk3 = Ok out ∧
    response_frequency_operation chunk1 chunk2 chunk3 = Ok out ∧
    response_amplitude_operation chunk1 chunk2 chunk3 = Ok out ∧
    apparent_polarity_operation chunk1 chunk2 chunk3 = Ok pol ∧
    is_peak reference (seq 0 (length reference)) peak ∧
    reference !! peak = Some r ∧ companion !! peak = Some v ∧
    trace_at out i j = Ok (replicate (length reference) v) ∧
    trace_at pol i j = Ok (replicate (length reference) (fmul r (sign v))).
Proof.
  destruct s as [[n0 n1] n2]. intros H1 H2 H3 Href Hcomp Hids Hne Hc.
  destruct (peak_pick_ok (take_companion chunk2) chunk1 chunk3 n0 n1 n2)
    as (out & Hrun & Hshape & Hdone); [done|done| |].
  { apply (companion_lookup chunk2 n0 n1 n2 n0 n1 n2 H2 (shape_le_refl _)). }
  destruct (peak_pick_ok (signed_peak chunk1 chunk2) chunk1 chunk3 n0 n1 n2)
    as (pol & Hrunp & Hshapep & Hdonep); [done|done| |].
  { intros a b p. by apply signed_peak_value_ok. }
  destruct (has_shape_trace_at_inv _ _ _ _ _ _ _ H1 Href) as (Hi & Hj & _).
  destruct (trace_done_single (take_companion chunk2) chunk1 chunk3 out
              n0 n1 n2 i j reference ids c)
    as (peak & v & Hpeak & Hv & Hout); [done..|by apply Hdone|].
  destruct (trace_done_single (signed_peak chunk1 chunk2) chunk1 chunk3 pol
              n0 n1 n2 i j reference ids c)
    as (q & w & Hq & Hw & Hpol); [done..|by apply Hdonep|].
  assert (q = peak) as -> by (by eapply is_peak_unique).
  unfold take_companion in Hv. unfold signed_peak in Hw. rewrite Hv in Hw.
  destruct (getitem3 chunk1 i j peak) as [r|] eqn:Hr; cbn [bind] in Hw; [|done].
  simplify_eq.
  exists out, pol, peak, r, v.
  rewrite response_phase_operation_peak_pick,
    response_frequency_operation_peak_pick,
    response_amplitude_operation_peak_pick,
    apparent_polarity_operation_peak_pick.
  repeat (split; [done|]).
  split; [by apply (getitem3_trace chunk1 i j peak reference)|].
  split; [by apply (getitem3_trace chunk2 i j peak companion)|done].
Qed.

(** X15 (witness): the trace [1, 2, 1] with the labels [0, 0, 0] and the
    companion [1, 0, -1]. *)
Lemma operations_single_segment_example :
  let r := of_Z <$> [1; 2; 1]%Z in
  let c := of_Z <$> [1; 0; -1]%Z in
  ∃ out pol peak x v,
    response_phase_operation [[r]] [[c]] [[[0; 0; 0]%Z]] = Ok out ∧
    response_frequency_operation [[r]] [[c]] [[[0; 0; 0]%Z]] = Ok out ∧
    response_amplitude_operation [[r]] [[c]] [[[0; 0; 0]%Z]] = Ok out ∧
    apparent_polarity_operation [[r]] [[c]] [[[0; 0; 0]%Z]] = Ok pol ∧
    is_peak r (seq 0 (length r)) peak ∧
    r !! peak = Some x ∧ c !! peak = Some v ∧
    trace_at out 0 0 = Ok (replicate (length r) v) ∧
    trace_at pol 0 0 = Ok (replicate (length r) (fmul x (sign v))).
Proof.
  intros r c.
  apply (operations_single_segment [[r]] [[c]] [[[0; 0; 0]%Z]] (1, 1, 3)
           0 0 r c [0; 0; 0]%Z 0%Z);
    try reflexivity; try discriminate; vm_compute; repeat constructor.
Defined.

(** X16.  The closures work trace by trace: the output trace (i, j) depends
    on the traces (i, j) of the three chunks only.  Two runs on chunks that
    agree on trace (i, j), whatever their other traces and their shapes,
    return the same output trace (i, j). *)
Theorem operations_trace_local
    (chunk1 chunk2 : ndarray float) (chunk3 : ndarray Z) (s : shape3)
    (chunk1' chunk2' : ndarray float) (chunk3' : ndarray Z) (s' : shape3)
    (i j : nat) :
  has_shape s chunk1 → has_shape s chunk2 → has_shape s chunk3 →
  has_shape s' chunk1' → has_shape s' chunk2' → has_shape s' chunk3' →
  i < s.1.1 → j < s.1.2 →
  trace_at chunk1' i j = trace_at chunk1 i j →
  trace_at chunk2' i j = trace_at chunk2 i j →
  trace_at chunk3' i j = trace_at chunk3 i j →
  ∃ out out' pol pol',
    response_phase_operation chunk1 chunk2 chunk3 = Ok out ∧
    response_frequency_operation chunk1 chunk2 chunk3 = Ok out ∧
    response_amplitude_operation chunk1 chunk2 chunk3 = Ok out ∧
    apparent_polarity_operation chunk1 chunk2 chunk3 = Ok pol ∧
    response_phase_operation chunk1' chunk2' chunk3' = Ok out' ∧
    response_frequency_operation chunk1' chunk2' chunk3' = Ok out' ∧
    response_amplitude_operation chunk1' chunk2' chunk3' = Ok out' ∧
    apparent_polarity_operation chunk1' chunk2' chunk3' = Ok pol' ∧
    trace_at out' i j = trace_at out i j ∧
    trace_at pol' i j = trace_at pol i j.
Proof.
  destruct s as [[n0 n1] n2], s' as [[n0' n1'] n2']. cbn [fst snd].
  intros H1 H2 H3 H1' H2' H3' Hi Hj E1 E2 E3.
  destruct (peak_pick_ok (take_companion chunk2) chunk1 chunk3 n0 n1 n2)
    as (out & Hrun & Hshape & Hdone); [done|done| |].
  { apply (companion_lookup chunk2 n0 n1 n2 n0 n1 n2 H2 (shape_le_refl _)). }
  destruct (peak_pick_ok (signed_peak chunk1 chunk2) chunk1 chunk3 n0 n1 n2)
    as (pol & Hrunp & Hshapep & Hdonep); [done|done| |].
  { intros a b p. by apply signed_peak_value_ok. }
  destruct (peak_pick_ok (take_companion chunk2') chunk1' chunk3' n0' n1' n2')
    as (out' & Hrun' & Hshape' & Hdone'); [done|done| |].
  { apply (companion_lookup chunk2' n0' n1' n2' n0' n1' n2' H2' (shape_le_refl _)). }
  destruct (peak_pick_ok (signed_peak chunk1' chunk2') chunk1' chunk3' n0' n1' n2')
    as (pol' & Hrunp' & Hshapep' & Hdonep'); [done|done| |].
  { intros a b p. by apply signed_peak_value_ok. }
  exists out, out', pol, pol'.
  rewrite ?response_phase_operation_peak_pick,
    ?response_frequency_operation_peak_pick,
    ?response_amplitude_operation_peak_pick,
    ?apparent_polarity_operation_peak_pick.
  repeat (split; [done|]).
  destruct (has_shape_trace_at _ _ _ _ _ _ H1 Hi Hj) as (reference & Href & _).
  rewrite Href in E1.
  destruct (has_shape_trace_at_inv _ _ _ _ _ _ _ H1' E1) as (Hi' & Hj' & _).
  rewrite <- Href in E1.
  split.
  - eapply (trace_done_local (take_companion chunk2) (take_companion chunk2')
              chunk1 chunk1' chunk3 chunk3'); eauto.
    intros p. unfold take_companion. by apply getitem3_ext.
  - eapply (trace_done_local (signed_peak chunk1 chunk2) (signed_peak chunk1' chunk2')
              chunk1 chunk1' chunk3 chunk3'); eauto.
    intros p. unfold signed_peak.
    by rewrite (getitem3_ext chunk1' chunk1), (getitem3_ext chunk2' chunk2).
Qed.

(** X16 (witness): the trace (0, 0) of a block of one trace and of a block of
    two. *)
Lemma operations_trace_local_example :
  let r := of_Z <$> [1; 2; 1]%Z in
  let c := of_Z <$> [1; 0; -1]%Z in
  let l := [0; 0; 0]%Z in
  ∃ out out' pol pol',
    response_phase_operation [[r]] [[c]] [[l]] = Ok out ∧
    response_frequency_operation [[r]] [[c]] [[l]] = Ok out ∧
    response_amplitude_operation [[r]] [[c]] [[l]] = Ok out ∧
    apparent_polarity_operation [[r]] [[c]] [[l]] = Ok pol ∧
    response_phase_operation [[r; c]] [[c; r]] [[l; l]] = Ok out' ∧
    response_frequency_operation [[r; c]] [[c; r]] [[l; l]] = Ok out' ∧
    response_amplitude_operation [[r; c]] [[c; r]] [[l; l]] = Ok out' ∧
    apparent_polarity_operation [[r; c]] [[c; r]] [[l; l]] = Ok pol' ∧
    trace_at out' 0 0 = trace_at out 0 0 ∧
    trace_at pol' 0 0 = trace_at pol 0 0.
Proof.
  intros r c l.
  apply (operations_trace_local [[r]] [[c]] [[l]] (1, 1, 3)
           [[r; c]] [[c; r]] [[l; l]] (1, 2, 3) 0 0);
    try reflexivity; vm_compute; repeat constructor.
Defined.

(** X17.  The closures use the labels only for the segments they induce.
    On chunks of one shape, renaming the labels by any injective function
    (adding the count that earlier blocks of a trace have reached, for
    instance, or reversing the order in which the segments are visited)
    leaves the output of every closure as it is. *)
Theorem operations_invariant_under_relabelling
    (chunk1 chunk2 : ndarray float) (chunk3 : ndarray Z) (s : shape3)
    (f : Z → Z) :
  Inj (=) (=) f →
  has_shape s chunk1 → has_shape s chunk2 → has_shape s chunk3 →
  response_phase_operation chunk1 chunk2 (cmap f chunk3) =
    response_phase_operation chunk1 chunk2 chunk3 ∧
  response_frequency_operation chunk1 chunk2 (cmap f chunk3) =
    response_frequency_operation chunk1 chunk2 chunk3 ∧
  response_amplitude_operation chunk1 chunk2 (cmap f chunk3) =
    response_amplitude_operation chunk1 chunk2 chunk3 ∧
  apparent_polarity_operation chunk1 chunk2 (cmap f chunk3) =
    apparent_polarity_operation chunk1 chunk2 chunk3.
Proof.
  destruct s as [[n0 n1] n2]. intros Hf H1 H2 H3.
  rewrite ?response_phase_operation_peak_pick,
    ?response_frequency_operation_peak_pick,
    ?response_amplitude_operation_peak_pick,
    ?apparent_polarity_operation_peak_pick.
  assert (peak_pick (take_companion chunk2) chunk1 (cmap f chunk3) =
          peak_pick (take_companion chunk2) chunk1 chunk3) as Htake.
  { apply (peak_pick_relabel _ _ _ n0 n1 n2); [done..|].
    apply (companion_lookup chunk2 n0 n1 n2 n0 n1 n2 H2 (shape_le_refl _)). }
  assert (peak_pick (signed_peak chunk1 chunk2) chunk1 (cmap f chunk3) =
          peak_pick (signed_peak chunk1 chunk2) chunk1 chunk3) as Hsigned.
  { apply (peak_pick_relabel _ _ _ n0 n1 n2); [done..|].
    intros i j p. by apply signed_peak_value_ok. }
  done.
Qed.

(** X17 (witness): the labels of scenario 1, negated: the segments are
    visited in the opposite order. *)
Lemma operations_invariant_under_relabelling_example :
  let e := of_Z <$> [1; 3; 5; 3; 1; 3; 5; 1]%Z in
  let l := [0; 0; 0; 0; 1; 1; 1; 1]%Z in
  response_phase_operation [[e]] [[e]] (cmap Z.opp [[l]]) =
    response_phase_operation [[e]] [[e]] [[l]] ∧
  response_frequency_operation [[e]] [[e]] (cmap Z.opp [[l]]) =
    response_frequency_operation [[e]] [[e]] [[l]] ∧
  response_amplitude_operation [[e]] [[e]] (cmap Z.opp [[l]]) =
    response_amplitude_operation [[e]] [[e]] [[l]] ∧
  apparent_polarity_operation [[e]] [[e]] (cmap Z.opp [[l]]) =
    apparent_polarity_operation [[e]] [[e]] [[l]].
Proof.
  intros e l.
  apply (operations_invariant_under_relabelling [[e]] [[e]] [[l]] (1, 1, 8) Z.opp).
  - intros x y H. lia.
  - vm_compute. repeat constructor.
  - vm_compute. repeat constructor.
  - vm_compute. repeat constructor.
Defined.

(** X18.  On chunks of one shape the take-companion closures invent no
    value: every element of the output is an element of the companion.  So
    a companion without NaN gives an output without NaN, which the post-pass
    leaves as it is. *)
Theorem operations_values_from_companion
    (chunk1 chunk2 : ndarray float) (chunk3 : ndarray Z) (s : shape3) :
  has_shape s chunk1 → has_shape s chunk2 → has_shape s chunk3 →
  ∃ out,
    response_phase_operation chunk1 chunk2 chunk3 = Ok out ∧
    response_frequency_operation chunk1 chunk2 chunk3 = Ok out ∧
    response_amplitude_operation chunk1 chunk2 chunk3 = Ok out ∧
    (∀ x, x ∈ elements out → x ∈ elements chunk2) ∧
    (Forall (λ x, isnan x = false) (elements chunk2) →
     Forall (λ x, isnan x = false) (elements out) ∧
     cmap (λ x, if isnan x then zero else x) out = out).
Proof.
  destruct s as [[n0 n1] n2]. intros H1 H2 H3.
  destruct (take_companion_ok chunk1 chunk2 chunk3 n0 n1 n2 n0 n1 n2 H1 H3 H2
              (shape_le_refl _)) as (out & Hrun & Hshape & Hval).
  exists out.
  rewrite response_phase_operation_peak_pick,
    response_frequency_operation_peak_pick,
    response_amplitude_operation_peak_pick.
  repeat (split; [done|]).
  assert (∀ x, x ∈ elements out → x ∈ elements chunk2) as Hfrom.
  { intros x (i & j & k & Hx)%elem_of_elements.
    unfold getitem3 in Hx.
    destruct (trace_at out i j) as [t|] eqn:Ht; cbn [bind] in Hx; [|done].
    destruct (has_shape_trace_at_inv _ _ _ _ _ _ _ Hshape Ht) as (Hi & Hj & Hlt).
    unfold getitem in Hx. destruct (t !! k) as [y|] eqn:Hk; [|done]. simplify_eq.
    pose proof (lookup_lt_Some _ _ _ Hk) as Hkn.
    destruct (has_shape_trace_at _ _ _ _ _ _ H1 Hi Hj) as (reference & Href & _).
    destruct (has_shape_trace_at _ _ _ _ _ _ H2 Hi Hj) as (companion & Hcomp & _).
    destruct (has_shape_trace_at _ _ _ _ _ _ H3 Hi Hj) as (ids & Hids & Hli).
    destruct (lookup_lt_is_Some_2 ids k) as [ii Hii]; [lia|].
    destruct (Hval i j k reference companion ids ii Href Hcomp Hids Hii)
      as (peak & v & _ & Hv & Hget).
    apply (getitem3_trace _ _ _ _ t) in Hget; [|done].
    assert (x = v) as -> by congruence.
    apply elem_of_elements. exists i, j, peak.
    by apply (getitem3_trace chunk2 i j peak companion). }
  split; [done|]. intros Hnan.
  assert (Forall (λ x, isnan x = false) (elements out)) as Hout.
  { apply Forall_forall. intros x Hx.
    by eapply (proj1 (Forall_forall _ _) Hnan), Hfrom. }
  split; [done|]. apply cmap_fixed.
  eapply Forall_impl; [exact Hout|]. intros x Hx. cbn. by rewrite Hx.
Qed.

(** X18 (witness): scenario 1. *)
Lemma operations_values_from_companion_example :
  let e := of_Z <$> [1; 3; 5; 3; 1; 3; 5; 1]%Z in
  let l := [0; 0; 0; 0; 1; 1; 1; 1]%Z in
  ∃ out,
    response_phase_operation [[e]] [[e]] [[l]] = Ok out ∧
    response_frequency_operation [[e]] [[e]] [[l]] = Ok out ∧
    response_amplitude_operation [[e]] [[e]] [[l]] = Ok out ∧
    (∀ x, x ∈ elements out → x ∈ elements [[e]]) ∧
    (Forall (λ x, isnan x = false) (elements [[e]]) →
     Forall (λ x, isnan x = false) (elements out) ∧
     cmap (λ x, if isnan x then zero else x) out = out).
Proof.
  intros e l.
  apply (operations_values_from_companion [[e]] [[e]] [[l]] (1, 1, 8));
    vm_compute; repeat constructor.
Defined.

